(** * Telegram-Bot: format selection and the download pipelines of [bot.js]

    A shallow embedding of [src/bot.js]: the format predicates and the
    ranking used to pick what is downloaded, and the three pipelines
    ([handleSingleVideo], [handlePlaylist], [cleanupTemp]) as programs of
    a small state-and-exception monad over a file system and a log of the
    calls made to the outside world. *)

From Stdlib Require Import ZArith Ascii String List Lia.
From stdpp Require Import base option list strings gmap fin_maps.

Import ListNotations.

(** ** JavaScript values as the code reads them *)

Module Js.

(** A numeric property read from the JSON of yt-dlp: a number, or absent
    ([undefined] or [null]). *)
Definition num := option Z.

(** Truthiness of such a property: [undefined], [null] and [0] are
    falsy. *)
Definition truthy (x : num) : bool :=
  match x with
  | Some n => negb (n =? 0)%Z
  | None => false
  end.

(** [x || y] on two numeric properties. *)
Definition or (x y : num) : num := if truthy x then x else y.

(** [x || 0]: the result is always a number. *)
Definition or0 (x : num) : Z :=
  match x with
  | Some n => if (n =? 0)%Z then 0%Z else n
  | None => 0%Z
  end.

(** A string property, possibly absent. [s === c] and [s !== c] against
    a string constant [c]. *)
Definition str := option string.

Definition seq (s : str) (c : string) : bool :=
  match s with
  | Some v => String.eqb v c
  | None => false
  end.

Definition sne (s : str) (c : string) : bool := negb (seq s c).

(** [n === k] for a numeric property and a number constant. *)
Definition neq (x : num) (k : Z) : bool :=
  match x with
  | Some n => (n =? k)%Z
  | None => false
  end.

(** [s || d] for a string property and a default: the empty string is
    falsy. *)
Definition str_or (s : str) (d : string) : string :=
  match s with
  | Some v => if String.eqb v "" then d else v
  | None => d
  end.

(** [Array.prototype.sort(cmp)]: a stable sort (ECMAScript 2019); an
    element [a] stays before [b] unless [cmp a b > 0].  For a comparator
    that is a difference of keys every stable sort gives the same
    array; insertion from the right is one. *)
Section Sort.
Context {A : Type} (cmp : A -> A -> Z).

Fixpoint insert_sorted (a : A) (l : list A) : list A :=
  match l with
  | [] => [a]
  | b :: l' =>
      if (cmp a b <=? 0)%Z then a :: b :: l' else b :: insert_sorted a l'
  end.

Fixpoint sort (l : list A) : list A :=
  match l with
  | [] => []
  | a :: l' => insert_sorted a (sort l')
  end.
End Sort.

End Js.

(** ** Format descriptors (the entries of [info.formats])

    Sizes, heights and bit rates are integers here. *)

Record Format := mkFormat {
  format_id : string;
  ext : string;
  height : Js.num;
  acodec : Js.str;
  vcodec : Js.str;
  filesize : Js.num;
  filesize_approx : Js.num;
  abr : Js.num;
  bitrate : Js.num
}.

(** Max Telegram upload size: 200MB. *)
Definition MAX_SIZE : Z := 200 * 1024 * 1024.

(** Limit playlist videos to avoid overload. *)
Definition MAX_PLAYLIST_VIDEOS : nat := 10.

(** [(f.filesize || f.filesize_approx) || 0] *)
Definition size_of (f : Format) : Z :=
  Js.or0 (Js.or (filesize f) (filesize_approx f)).

(** [... <= MAX_SIZE], the last conjunct of every predicate below. *)
Definition under_size_limit (f : Format) : bool :=
  (size_of f <=? MAX_SIZE)%Z.

(** [f.acodec !== 'none'] and [f.vcodec !== 'none']: which streams a
    descriptor carries. *)
Definition hasAudio (f : Format) : bool := Js.sne (acodec f) "none".
Definition hasVideo (f : Format) : bool := Js.sne (vcodec f) "none".

(** The predicate of [info.formats.find] for the combined 720p format
    (bot.js lines 69-75 and 192-198). *)
Definition is_combined (f : Format) : bool :=
  (String.eqb (ext f) "mp4" || String.eqb (ext f) "webm") &&
  Js.neq (height f) 720 &&
  Js.sne (acodec f) "none" &&
  Js.sne (vcodec f) "none" &&
  under_size_limit f.

(** The predicate for the video-only 720p format (lines 107-113 and
    210-216). *)
Definition is_videoOnly (f : Format) : bool :=
  (String.eqb (ext f) "mp4" || String.eqb (ext f) "webm") &&
  Js.neq (height f) 720 &&
  Js.seq (acodec f) "none" &&
  Js.sne (vcodec f) "none" &&
  under_size_limit f.

(** The filter of the audio candidates (lines 120-124 and 223-227). *)
Definition is_audioOnly (f : Format) : bool :=
  Js.sne (acodec f) "none" &&
  Js.seq (vcodec f) "none" &&
  (String.eqb (ext f) "mp4" || String.eqb (ext f) "webm" ||
   String.eqb (ext f) "m4a") &&
  under_size_limit f.

(** [a.abr || a.bitrate || 0], the ranking key of the audio candidates. *)
Definition audio_rate (f : Format) : Z :=
  Js.or0 (Js.or (abr f) (bitrate f)).

(** The comparator [(a, b) => rate(b) - rate(a)] (line 125). *)
Definition by_rate_desc (a b : Format) : Z := (audio_rate b - audio_rate a)%Z.

Definition combined (formats : list Format) : option Format :=
  List.find is_combined formats.

Definition videoOnly (formats : list Format) : option Format :=
  List.find is_videoOnly formats.

Definition audioCandidates (formats : list Format) : list Format :=
  Js.sort by_rate_desc (List.filter is_audioOnly formats).

(** [audioCandidates[0]], absent when the array is empty. *)
Definition bestAudio (formats : list Format) : option Format :=
  List.head (audioCandidates formats).

(** The outcome of the selection that both handlers run inline: the
    combined format if there is one, else the video-only format with the
    best audio, else the reason nothing can be downloaded. *)
Inductive Reason := NoVideoOnly | NoAudioOnly.

Inductive SelectionResult :=
| Combined (c : Format)
| SplitPair (v a : Format)
| NoneFound (r : Reason).

Definition select (formats : list Format) : SelectionResult :=
  match combined formats with
  | Some c => Combined c
  | None =>
      match videoOnly formats with
      | None => NoneFound NoVideoOnly
      | Some v =>
          match bestAudio formats with
          | None => NoneFound NoAudioOnly
          | Some a => SplitPair v a
          end
      end
  end.

(** ** The outside world

    Everything the handlers touch outside their own variables: the files
    on disk (path to size in bytes) and, newest first, the calls made to
    Telegram, yt-dlp, ffmpeg, archiver, the file system and the console,
    each with its result. *)

(** The texts sent with [bot.sendMessage], one constructor per message of
    bot.js (the line is given for each). *)
Inductive Notice :=
| NProcessing (safeTitle : string)            (* 59: Processing video: ... *)
| NDownloadingCombined (format : string)      (* 79 *)
| NDownloadedTooLarge                         (* 90: Downloaded video exceeds 200MB *)
| NStatError                                  (* 96: Error reading downloaded file *)
| NNoCombined                                 (* 104 *)
| NNoVideoOnly                                (* 116 *)
| NNoAudioOnly                                (* 128 *)
| NDownloadingVideo (format : string)         (* 138 *)
| NDownloadingAudio (format : string)         (* 141 *)
| NMerging                                    (* 144 *)
| NMergedTooLarge                             (* 150: Merged video exceeds 200MB *)
| NDownloadOrMergeError                       (* 156: Error during download or merge *)
| NDownloadingPlaylist (safeTitle : string) (videos : nat)  (* 169 *)
| NNoVideosDownloaded                         (* 259: No videos could be downloaded *)
| NZipTooLarge                                (* 267: Zipped file exceeds 200MB *)
| NZipError.                                  (* 273: Failed to create or send zip *)

(** What is written with [console.warn] and [console.error] (what
    [console.log] prints is left out of the log). *)
Inductive Diagnostic :=
| DStatError                    (* 95 *)
| DDownloadOrMerge              (* 155 *)
| DSkipNoVideoOnly (vTitle : string)   (* 219 *)
| DSkipNoAudioOnly (vTitle : string)   (* 231 *)
| DPlaylistVideo                (* 253 *)
| DZip                          (* 272 *)
| DFfmpeg                       (* 285 *)
| DUnlink (filePath : string)   (* 321 *)
| DRmdir (tempDir : string).    (* 332 *)

Inductive Exn :=
| TelegramError | YtdlError | FfmpegError | ArchiverError | MkdtempError
| ENOENT.

(** An entry of [downloadedFiles]. *)
Record File := mkFile { path : string; name : string }.

Inductive Event :=
| SendMessage (chatId : Z) (text : Notice) (ok : bool)
| SendVideo (chatId : Z) (filePath : string) (ok : bool)
| SendDocument (chatId : Z) (filePath : string) (ok : bool)
| DumpSingleJson (url : string) (ok : bool)
| Download (url format output : string) (ok : bool)
| Ffmpeg (videoPath audioPath outputPath : string) (ok : bool)
| Archiver (files : list File) (zipPath : string) (ok : bool)
| Mkdtemp (prefix : string) (dir : option string)
| Stat (filePath : string) (size : option Z)
| Unlink (filePath : string) (ok : bool)
| Rmdir (dir : string)
| Console (d : Diagnostic).

Record World := mkWorld {
  fs : gmap string Z;
  log : list Event
}.

Definition emit (e : Event) (w : World) : World :=
  {| fs := fs w; log := e :: log w |}.

(** The calls in the order they were made. *)
Definition trace (w : World) : list Event := rev (log w).

(** A playlist entry and the JSON that yt-dlp prints for a URL. *)
Record Entry := mkEntry { url : Js.str; id : Js.str }.

Record Info := mkInfo {
  title : Js.str;
  formats : list Format;
  entries : list Entry
}.

(** The collaborators.  What each answers may depend on everything that
    happened before (the world it is called in); the programs that touch
    the disk also say what the disk looks like afterwards.  [sanitize] is
    the sanitize-filename package; [__dirname] and [tmpdir] are the
    directory of the script and [os.tmpdir()]. *)
Record Collaborators := mkCollaborators {
  __dirname : string;
  tmpdir : string;
  sanitize : string -> string;
  bot_sendMessage : World -> Z -> Notice -> bool;
  bot_sendVideo : World -> Z -> string -> bool;
  bot_sendDocument : World -> Z -> string -> bool;
  ytdl_json : World -> string -> option Info;
  ytdl_download : World -> string -> string -> string -> bool * gmap string Z;
  ffmpeg : World -> string -> string -> string -> bool * gmap string Z;
  archiver : World -> list File -> string -> bool * gmap string Z;
  fs_mkdtemp : World -> string -> option string
}.

(** ** Asynchronous functions: state and exceptions *)

Inductive Outcome (A : Type) :=
| Ret (a : A)
| Throw (e : Exn).
Arguments Ret {A} a.
Arguments Throw {A} e.

Definition M (A : Type) : Type := World -> Outcome A * World.

Definition ret {A} (a : A) : M A := fun w => (Ret a, w).

Definition bind {A B} (m : M A) (k : A -> M B) : M B := fun w =>
  match m w with
  | (Ret a, w') => k a w'
  | (Throw e, w') => (Throw e, w')
  end.

(** [try { m } catch (err) { h err }] *)
Definition try_catch {A} (m : M A) (h : Exn -> M A) : M A := fun w =>
  match m w with
  | (Ret a, w') => (Ret a, w')
  | (Throw e, w') => h e w'
  end.

(** [try { m } finally { f }]: [f] runs however [m] ends, and an
    exception of [f] replaces the outcome of [m]. *)
Definition try_finally {A} (m : M A) (f : M unit) : M A := fun w =>
  match m w with
  | (o, w') =>
      match f w' with
      | (Ret _, w'') => (o, w'')
      | (Throw e, w'') => (Throw e, w'')
      end
  end.

Declare Scope async_scope.
Delimit Scope async_scope with async.
Notation "x <- m ;; k" := (bind m (fun x => k))
  (at level 100, m at next level, right associativity) : async_scope.
Notation "m ;; k" := (bind m (fun _ => k))
  (at level 100, right associativity) : async_scope.

(** [for (const x of xs) { acc = body acc x }] *)
Fixpoint for_of {A B} (xs : list A) (body : B -> A -> M B) (acc : B) : M B :=
  match xs with
  | [] => ret acc
  | x :: xs' => bind (body acc x) (for_of xs' body)
  end.

(** ** Paths *)

(** [path.resolve(dir, name)] and [path.join(dir, name)] for a file name
    without separators or dot segments, which is what the handlers pass. *)
Definition path_join (dir name : string) : string := dir +:+ "/" +:+ name.

(** [path.basename]: what follows the last separator. *)
Fixpoint basename_from (acc s : string) : string :=
  match s with
  | EmptyString => acc
  | String c s' =>
      if Ascii.eqb c "/"%char then basename_from "" s'
      else basename_from (acc +:+ String c "") s'
  end.

Definition basename (s : string) : string := basename_from "" s.

(** [s.slice(0, 100)] *)
Definition slice100 (s : string) : string := String.substring 0 100 s.

(** The URL fetched for a playlist entry (line 179). *)
Definition videoUrl (video : Entry) : string :=
  let watch :=
    "https://www.youtube.com/watch?v=" +:+
    match id video with
    | Some i => if String.eqb i "" then
                  match url video with Some u => u | None => "undefined" end
                else i
    | None => match url video with Some u => u | None => "undefined" end
    end in
  match url video with
  | Some u => if negb (String.eqb u "") && String.prefix "http" u then u else watch
  | None => watch
  end.

(** ** The handlers of bot.js *)

Section Handlers.

Variable E : Collaborators.

Local Open Scope async_scope.

(** *** Calls to the outside *)

Definition sendMessage (chatId : Z) (text : Notice) : M unit := fun w =>
  let ok := bot_sendMessage E w chatId text in
  (if ok then Ret tt else Throw TelegramError,
   emit (SendMessage chatId text ok) w).

Definition sendVideo (chatId : Z) (filePath : string) : M unit := fun w =>
  let ok := bot_sendVideo E w chatId filePath in
  (if ok then Ret tt else Throw TelegramError,
   emit (SendVideo chatId filePath ok) w).

Definition sendDocument (chatId : Z) (filePath : string) : M unit := fun w =>
  let ok := bot_sendDocument E w chatId filePath in
  (if ok then Ret tt else Throw TelegramError,
   emit (SendDocument chatId filePath ok) w).

(** [youtubedl(url, { dumpSingleJson: true, ... })] *)
Definition youtubedl_json (u : string) : M Info := fun w =>
  match ytdl_json E w u with
  | Some info => (Ret info, emit (DumpSingleJson u true) w)
  | None => (Throw YtdlError, emit (DumpSingleJson u false) w)
  end.

(** [youtubedl(url, { format, output })] *)
Definition youtubedl (u format output : string) : M unit := fun w =>
  match ytdl_download E w u format output with
  | (ok, disk) =>
      (if ok then Ret tt else Throw YtdlError,
       {| fs := disk; log := Download u format output ok :: log w |})
  end.

Definition console (d : Diagnostic) : M unit := fun w =>
  (Ret tt, emit (Console d) w).

(** [fs.stat(p)], of which only [.size] is read. *)
Definition stat (p : string) : M Z := fun w =>
  match fs w !! p with
  | Some size => (Ret size, emit (Stat p (Some size)) w)
  | None => (Throw ENOENT, emit (Stat p None) w)
  end.

Definition unlink (p : string) : M unit := fun w =>
  match fs w !! p with
  | Some _ => (Ret tt, {| fs := delete p (fs w); log := Unlink p true :: log w |})
  | None => (Throw ENOENT, emit (Unlink p false) w)
  end.

(** [fs.rmdir(dir, { recursive: true })]: the files below [dir] go with
    it. *)
Definition rmdir (dir : string) : M unit := fun w =>
  (Ret tt,
   {| fs := filter (fun kv => negb (String.prefix (dir +:+ "/") (fst kv))) (fs w);
      log := Rmdir dir :: log w |}).

Definition mkdtemp (prefix : string) : M string := fun w =>
  match fs_mkdtemp E w prefix with
  | Some suffix =>
      (Ret (prefix +:+ suffix), emit (Mkdtemp prefix (Some (prefix +:+ suffix))) w)
  | None => (Throw MkdtempError, emit (Mkdtemp prefix None) w)
  end.

(** *** [ffmpegMerge], [zipFiles], [cleanupFile], [cleanupTemp] *)

Definition ffmpegMerge (videoPath audioPath outputPath : string) : M unit :=
  fun w =>
  match ffmpeg E w videoPath audioPath outputPath with
  | (ok, disk) =>
      let w' :=
        {| fs := disk;
           log := Ffmpeg videoPath audioPath outputPath ok :: log w |} in
      if ok then (Ret tt, w')
      else (Throw FfmpegError, emit (Console DFfmpeg) w')
  end.

(** [zipFiles] resolves when the output stream closes and rejects on an
    [error] event of archiver, which is [ok = false] here.  Lines
    295-315 register no [error] listener on the output stream: when
    the stream itself fails the promise does not settle, and such a
    run is not among those of this model. *)
Definition zipFiles (files : list File) (zipPath : string) : M unit := fun w =>
  match archiver E w files zipPath with
  | (ok, disk) =>
      (if ok then Ret tt else Throw ArchiverError,
       {| fs := disk; log := Archiver files zipPath ok :: log w |})
  end.

Definition cleanupFile (filePath : string) : M unit :=
  try_catch (unlink filePath)
    (fun err =>
       match err with
       | ENOENT => ret tt
       | _ => console (DUnlink filePath)
       end).

(** [Promise.all] over the files: the unlinks do not depend on each
    other, so they are run here one after the other. *)
Definition cleanupTemp (files : list File) (tempDir zipPath : string) : M unit :=
  for_of files (fun _ f => cleanupFile (path f)) tt ;;
  try_catch (rmdir tempDir)
    (fun err =>
       match err with
       | ENOENT => ret tt
       | _ => console (DRmdir tempDir)
       end) ;;
  cleanupFile zipPath.

(** *** [handleSingleVideo] *)

Definition handleSingleVideo (chatId : Z) (info : Info) (u : string) : M unit :=
  let safeTitle := slice100 (sanitize E (Js.str_or (title info) "video")) in
  sendMessage chatId (NProcessing safeTitle) ;;
  match combined (formats info) with
  | Some c =>
      let outputPath :=
        path_join (__dirname E)
          (safeTitle +:+ "_" +:+ format_id c +:+ "." +:+ ext c) in
      sendMessage chatId (NDownloadingCombined (format_id c)) ;;
      youtubedl u (format_id c) outputPath ;;
      try_catch
        (size <- stat outputPath ;;
         if (size >? MAX_SIZE)%Z
         then sendMessage chatId NDownloadedTooLarge
         else sendVideo chatId outputPath)
        (fun _ => console DStatError ;; sendMessage chatId NStatError) ;;
      (* not awaited in bot.js: the unlink is started before the handler
         returns *)
      cleanupFile outputPath
  | None =>
      sendMessage chatId NNoCombined ;;
      match videoOnly (formats info) with
      | None => sendMessage chatId NNoVideoOnly
      | Some v =>
          match bestAudio (formats info) with
          | None => sendMessage chatId NNoAudioOnly
          | Some a =>
              let videoPath :=
                path_join (__dirname E) (safeTitle +:+ "_video." +:+ ext v) in
              let audioPath :=
                path_join (__dirname E) (safeTitle +:+ "_audio." +:+ ext a) in
              let outputPath :=
                path_join (__dirname E) (safeTitle +:+ "_720p_merged.mp4") in
              try_finally
                (try_catch
                   (sendMessage chatId (NDownloadingVideo (format_id v)) ;;
                    youtubedl u (format_id v) videoPath ;;
                    sendMessage chatId (NDownloadingAudio (format_id a)) ;;
                    youtubedl u (format_id a) audioPath ;;
                    sendMessage chatId NMerging ;;
                    ffmpegMerge videoPath audioPath outputPath ;;
                    size <- stat outputPath ;;
                    if (size >? MAX_SIZE)%Z
                    then sendMessage chatId NMergedTooLarge
                    else sendVideo chatId outputPath)
                   (fun _ =>
                      console DDownloadOrMerge ;;
                      sendMessage chatId NDownloadOrMergeError))
                (cleanupFile videoPath ;;
                 cleanupFile audioPath ;;
                 cleanupFile outputPath)
          end
      end
  end.

(** *** [handlePlaylist] *)

(** The body of the [for] loop (lines 177-254), with the array it
    pushes to; [continue] leaves the array as it is. *)
Definition playlist_video (tempDir : string)
    (downloadedFiles : list File) (video : Entry) : M (list File) :=
  try_catch
    (let vurl := videoUrl video in
     videoInfo <- youtubedl_json vurl ;;
     let vTitle := slice100 (sanitize E (Js.str_or (title videoInfo) "video")) in
     match combined (formats videoInfo) with
     | Some c =>
         let outputPath :=
           path_join tempDir (vTitle +:+ "_" +:+ format_id c +:+ "." +:+ ext c) in
         youtubedl vurl (format_id c) outputPath ;;
         ret (downloadedFiles ++ [mkFile outputPath (basename outputPath)])
     | None =>
         match videoOnly (formats videoInfo) with
         | None => console (DSkipNoVideoOnly vTitle) ;; ret downloadedFiles
         | Some v =>
             match bestAudio (formats videoInfo) with
             | None => console (DSkipNoAudioOnly vTitle) ;; ret downloadedFiles
             | Some a =>
                 let videoPath :=
                   path_join tempDir (vTitle +:+ "_video." +:+ ext v) in
                 let audioPath :=
                   path_join tempDir (vTitle +:+ "_audio." +:+ ext a) in
                 let outputPath :=
                   path_join tempDir (vTitle +:+ "_720p_merged.mp4") in
                 youtubedl vurl (format_id v) videoPath ;;
                 youtubedl vurl (format_id a) audioPath ;;
                 ffmpegMerge videoPath audioPath outputPath ;;
                 cleanupFile videoPath ;;
                 cleanupFile audioPath ;;
                 ret (downloadedFiles ++ [mkFile outputPath (basename outputPath)])
             end
         end
     end)
    (fun _ => console DPlaylistVideo ;; ret downloadedFiles).

Definition handlePlaylist (chatId : Z) (info : Info) : M unit :=
  let safeTitle := slice100 (sanitize E (Js.str_or (title info) "playlist")) in
  tempDir <- mkdtemp (path_join (tmpdir E) "ytplaylist-") ;;
  let zipPath := path_join (__dirname E) (safeTitle +:+ ".zip") in
  sendMessage chatId
    (NDownloadingPlaylist safeTitle (length (entries info))) ;;
  let entries := firstn MAX_PLAYLIST_VIDEOS (entries info) in
  downloadedFiles <- for_of entries (playlist_video tempDir) [] ;;
  if (length downloadedFiles =? 0)%nat then
    cleanupTemp downloadedFiles tempDir zipPath ;;
    sendMessage chatId NNoVideosDownloaded
  else
    try_finally
      (try_catch
         (zipFiles downloadedFiles zipPath ;;
          size <- stat zipPath ;;
          if (size >? MAX_SIZE)%Z
          then sendMessage chatId NZipTooLarge
          else sendDocument chatId zipPath)
         (fun _ => console DZip ;; sendMessage chatId NZipError))
      (cleanupTemp downloadedFiles tempDir zipPath).

End Handlers.

(** * What the claims are stated with *)

(** The first element among those of highest rate, computed from the
    right. *)
Fixpoint first_max {A : Type} (rate : A -> Z) (l : list A) : option A :=
  match l with
  | [] => None
  | a :: l' =>
      match first_max rate l' with
      | None => Some a
      | Some b => if (rate b <=? rate a)%Z then Some a else Some b
      end
  end.

(** The descriptors a selection hands to the download. *)
Definition chosen (r : SelectionResult) : list Format :=
  match r with
  | Combined c => [c]
  | SplitPair v a => [v; a]
  | NoneFound _ => []
  end.

(** Neither [filesize] nor [filesize_approx] is present. *)
Definition size_unknown (f : Format) : Prop :=
  filesize f = None /\ filesize_approx f = None.

(** A handler starts on the disk as it is, with an empty log; the world it
    leaves behind is what the claims below are about. *)
Definition start (disk : gmap string Z) : World := {| fs := disk; log := [] |}.

Definition after_single (E : Collaborators) (chatId : Z) (info : Info)
    (u : string) (disk : gmap string Z) : World :=
  snd (handleSingleVideo E chatId info u (start disk)).

Definition after_playlist (E : Collaborators) (chatId : Z) (info : Info)
    (disk : gmap string Z) : World :=
  snd (handlePlaylist E chatId info (start disk)).

(** Is there a file at [p]? *)
Definition present (disk : gmap string Z) (p : string) : bool :=
  match disk !! p with
  | Some _ => true
  | None => false
  end.

(** The URLs whose JSON was requested, one per playlist video attempted,
    read off a log (newest first). *)
Fixpoint fetched (l : list Event) : list string :=
  match l with
  | [] => []
  | DumpSingleJson u _ :: l' => u :: fetched l'
  | _ :: l' => fetched l'
  end.

(** The videos attempted, in the order of the attempts. *)
Definition attempts (w : World) : list string := rev (fetched (log w)).

(** The three ways a playlist video is given up: the two [console.warn]
    before [continue] and the [console.error] of the [catch]. *)
Definition is_skip (e : Event) : bool :=
  match e with
  | Console (DSkipNoVideoOnly _) | Console (DSkipNoAudioOnly _)
  | Console DPlaylistVideo => true
  | _ => false
  end.

Definition skips (l : list Event) : nat := length (List.filter is_skip l).

(** The videos attempted and not given up. *)
Definition survivors (w : World) : nat :=
  length (fetched (log w)) - skips (log w).

(** [p] is a file directly inside [dir]. *)
Definition inside (dir p : string) : Prop := exists name, p = path_join dir name.

(** The calls made while one playlist video is processed: to yt-dlp, to
    ffmpeg, to unlink and to the console, on files inside [tempDir]. *)
Definition video_event (tempDir : string) (e : Event) : Prop :=
  match e with
  | DumpSingleJson _ _ | Console _ => True
  | Download _ _ p _ | Unlink p _ => inside tempDir p
  | Ffmpeg v a o _ => inside tempDir v /\ inside tempDir a /\ inside tempDir o
  | _ => False
  end.

(** The calls made by [cleanupTemp]. *)
Definition cleanup_event (files : list File) (tempDir zipPath : string)
    (e : Event) : Prop :=
  match e with
  | Unlink p _ => p = zipPath \/ In p (map path files)
  | Rmdir d => d = tempDir
  | _ => False
  end.

(** The handler got as far as the loop: Telegram accepted the message
    that announces the playlist. *)
Definition announced (chatId : Z) (w : World) : Prop :=
  exists safeTitle n,
    In (SendMessage chatId (NDownloadingPlaylist safeTitle n) true) (log w).

(** The three messages that say a file exceeds 200MB. *)
Definition says_too_large (text : Notice) : bool :=
  match text with
  | NDownloadedTooLarge | NMergedTooLarge | NZipTooLarge => true
  | _ => false
  end.

(** The files a call reads, writes or removes. *)
Definition touches (e : Event) : list string :=
  match e with
  | SendVideo _ p _ | SendDocument _ p _ | Stat p _ | Unlink p _ => [p]
  | Download _ _ output _ => [output]
  | Ffmpeg v a o _ => [v; a; o]
  | Archiver files zipPath _ => zipPath :: map path files
  | _ => []
  end.

(** The paths [handleSingleVideo] builds (lines 78 and 133-135): they are
    made of the directory of the script, the sanitized title and the
    format chosen, and of nothing that belongs to the request. *)
Definition single_paths (E : Collaborators) (info : Info) : list string :=
  let safeTitle := slice100 (sanitize E (Js.str_or (title info) "video")) in
  map (path_join (__dirname E))
    match select (formats info) with
    | Combined c => [safeTitle +:+ "_" +:+ format_id c +:+ "." +:+ ext c]
    | SplitPair v a =>
        [safeTitle +:+ "_video." +:+ ext v;
         safeTitle +:+ "_audio." +:+ ext a;
         safeTitle +:+ "_720p_merged.mp4"]
    | NoneFound _ => []
    end.

(** The path of the archive of a playlist (line 167). *)
Definition zip_path (E : Collaborators) (info : Info) : string :=
  path_join (__dirname E)
    (slice100 (sanitize E (Js.str_or (title info) "playlist")) +:+ ".zip").

(** * The selection in the words of the claims

    What the claims on the selection call a qualifying descriptor,
    written out on the fields of a descriptor, for the predicates of
    bot.js to be compared with. *)

(** The size a descriptor states: [filesize], else [filesize_approx];
    a size of 0 states nothing. *)
Definition stated (x : Js.num) : option Z :=
  match x with
  | Some n => if (n =? 0)%Z then None else Some n
  | None => None
  end.

Definition known_size (f : Format) : option Z :=
  match stated (filesize f) with
  | Some n => Some n
  | None => stated (filesize_approx f)
  end.

(** Within the cap as bot.js applies it: no size stated, or one of at
    most [MAX_SIZE]. *)
Definition within_cap (f : Format) : Prop :=
  match known_size f with
  | Some n => (n <= MAX_SIZE)%Z
  | None => True
  end.

(** Within the cap as the spec words it: a size is stated, and it is at
    most [MAX_SIZE]. *)
Definition known_within_cap (f : Format) : Prop :=
  match known_size f with
  | Some n => (n <= MAX_SIZE)%Z
  | None => False
  end.

Definition carries_audio (f : Format) : Prop := acodec f <> Some "none".
Definition carries_video (f : Format) : Prop := vcodec f <> Some "none".

(** A combined variant, a video-only variant and an audio-only variant
    that qualify, for a reading [cap] of the size cap: the container,
    the target height of 720, the streams and the cap. *)
Definition combined_under (cap : Format -> Prop) (f : Format) : Prop :=
  In (ext f) ["mp4"; "webm"] /\ height f = Some 720%Z /\
  carries_audio f /\ carries_video f /\ cap f.

Definition videoOnly_under (cap : Format -> Prop) (f : Format) : Prop :=
  In (ext f) ["mp4"; "webm"] /\ height f = Some 720%Z /\
  ~ carries_audio f /\ carries_video f /\ cap f.

Definition audioOnly_under (cap : Format -> Prop) (f : Format) : Prop :=
  carries_audio f /\ ~ carries_video f /\
  In (ext f) ["mp4"; "webm"; "m4a"] /\ cap f.

Definition qualifies_combined : Format -> Prop := combined_under within_cap.
Definition qualifies_videoOnly : Format -> Prop := videoOnly_under within_cap.
Definition qualifies_audioOnly : Format -> Prop := audioOnly_under within_cap.

(** The bit rate the audio tracks are ranked by: [abr], else [bitrate],
    else 0; an [abr] of 0 counts as absent. *)
Definition stated_rate (f : Format) : Z :=
  match stated (abr f) with
  | Some n => n
  | None =>
      match bitrate f with
      | Some n => n
      | None => 0%Z
      end
  end.

(** * Scenarios to run the handlers on *)

Module Demo.
(** A combined 720p format, a video-only one and three audio tracks, as
    yt-dlp lists them; none carries a size. *)
Definition f22 : Format :=
  mkFormat "22" "mp4" (Some 720%Z) (Some "mp4a.40.2") (Some "avc1.64001F")
           None None None None.
Definition f136 : Format :=
  mkFormat "136" "mp4" (Some 720%Z) (Some "none") (Some "avc1.4d401f")
           None None None None.
Definition f139 : Format :=
  mkFormat "139" "m4a" None (Some "mp4a.40.5") (Some "none")
           None None (Some 64%Z) None.
Definition f140 : Format :=
  mkFormat "140" "m4a" None (Some "mp4a.40.2") (Some "none")
           None None (Some 128%Z) None.
Definition f141 : Format :=
  mkFormat "141" "m4a" None (Some "mp4a.40.2") (Some "none")
           None None (Some 256%Z) None.
(** The same combined format from a second source, with a known size. *)
Definition f18 : Format :=
  mkFormat "18" "webm" (Some 720%Z) (Some "opus") (Some "vp9")
           (Some 1000%Z) None None None.

End Demo.

(** Formats that state their size. *)
Module Sized.

Definition f136 : Format :=
  mkFormat "136" "mp4" (Some 720%Z) (Some "none") (Some "avc1.4d401f")
           (Some 5000%Z) None None None.

Definition f140 : Format :=
  mkFormat "140" "m4a" None (Some "mp4a.40.2") (Some "none")
           (Some 1000%Z) None (Some 128%Z) None.

End Sized.

Module Scenario.

(** Telegram, yt-dlp, ffmpeg and archiver on a machine where the script
    lives in [/app]: every download, merge and archive leaves [size]
    bytes at its output path, ffmpeg succeeds or not as [merge_ok] says
    (leaving its partial output behind when it fails), and Telegram
    accepts a message or not as [telegram] says. *)
Definition env (telegram : Notice -> bool) (size : Z) (merge_ok : bool)
    (item : Info) : Collaborators :=
  {| __dirname := "/app";
     tmpdir := "/tmp";
     sanitize := fun s => s;
     bot_sendMessage := fun _ _ text => telegram text;
     bot_sendVideo := fun _ _ _ => true;
     bot_sendDocument := fun _ _ _ => true;
     ytdl_json := fun _ _ => Some item;
     ytdl_download := fun w _ _ output => (true, <[output := size]> (fs w));
     ffmpeg := fun w _ _ outputPath => (merge_ok, <[outputPath := size]> (fs w));
     archiver := fun w _ zipPath => (true, <[zipPath := size]> (fs w));
     fs_mkdtemp := fun _ _ => Some "Ab12Cd" |}.

Definition online (_ : Notice) : bool := true.

(** The user blocks the bot while the download runs: from then on
    Telegram rejects what the bot sends. *)
Definition blocked (text : Notice) : bool :=
  match text with
  | NProcessing _ | NDownloadingCombined _ => true
  | _ => false
  end.

Definition clip_combined : Info :=
  mkInfo (Some "clip") [Demo.f136; Demo.f22; Demo.f140] [].

Definition clip_split : Info :=
  mkInfo (Some "clip") [Demo.f139; Demo.f136; Demo.f141; Demo.f140] [].

End Scenario.

(** A playlist of fifteen entries. *)
Definition fifteen : Info :=
  mkInfo (Some "mix") []
    (map (fun i => mkEntry (Some i) (Some i))
       ["a01"; "a02"; "a03"; "a04"; "a05"; "a06"; "a07"; "a08"; "a09"; "a10";
        "a11"; "a12"; "a13"; "a14"; "a15"]).

(** A playlist of five videos on a bad day: the first downloads fine,
    for the second yt-dlp prints no JSON, the third has no 720p
    video-only format, the download of the fourth breaks, and ffmpeg
    fails on the fifth. *)
Module Flaky.

Definition watch (i : string) : string :=
  "https://www.youtube.com/watch?v=" +:+ i.

Definition env : Collaborators :=
  {| __dirname := "/app";
     tmpdir := "/tmp";
     sanitize := fun s => s;
     bot_sendMessage := fun _ _ _ => true;
     bot_sendVideo := fun _ _ _ => true;
     bot_sendDocument := fun _ _ _ => true;
     ytdl_json := fun _ u =>
       if String.eqb u (watch "b02") then None
       else if String.eqb u (watch "b03")
            then Some (mkInfo (Some "talk") [Demo.f140] [])
       else if String.eqb u (watch "b05")
            then Some (mkInfo (Some "live") [Demo.f136; Demo.f140] [])
       else Some (mkInfo (Some "song") [Demo.f22] []);
     ytdl_download := fun w u _ output =>
       (negb (String.eqb u (watch "b04")), <[output := 1000%Z]> (fs w));
     ffmpeg := fun w _ _ outputPath => (false, fs w);
     archiver := fun w _ zipPath => (true, <[zipPath := 1000%Z]> (fs w));
     fs_mkdtemp := fun _ _ => Some "Ab12Cd" |}.

Definition five : Info :=
  mkInfo (Some "mix") []
    (map (fun i => mkEntry (Some i) (Some i)) ["b01"; "b02"; "b03"; "b04"; "b05"]).

(** The same day with a playlist of the four videos that fail. *)
Definition four : Info :=
  mkInfo (Some "mix") []
    (map (fun i => mkEntry (Some i) (Some i)) ["b02"; "b03"; "b04"; "b05"]).

End Flaky.

(** A request whose JSON lists both formats and entries. *)
Definition clip_and_entries : Info :=
  mkInfo (Some "clip") [Demo.f22]
    [mkEntry (Some "c01") (Some "c01"); mkEntry (Some "c02") (Some "c02")].


(** * The rest of bot.js and the stand-alone script *)

(** ** The link test of the message handler (bot.js line 29)

    [/^https?:\/\/(www\.)?(youtube\.com|youtu\.be)/.test(url)]: the
    pattern denotes eight strings, and the test asks whether the text
    starts with one of them. *)
Definition youtube_patterns : list string :=
  flat_map (fun scheme =>
    flat_map (fun www =>
      map (fun host => scheme +:+ "://" +:+ www +:+ host)
        ["youtube.com"; "youtu.be"])
      [""; "www."])
    ["http"; "https"].

Definition youtube_url (s : string) : bool :=
  existsb (fun p => String.prefix p s) youtube_patterns.

(** ** The stand-alone script (src/unnamed/part_000)

    The script selects as bot.js does, without the size cap and ranking
    the audio formats by [bitrate] alone, and names its files after the
    title with the characters that file names may not hold replaced by
    an underscore. *)
Module Script.

(** The character class: the control characters and nine punctuation
    marks (34 is the double quote, 92 the backslash). *)
Definition unsafe (c : ascii) : bool :=
  (nat_of_ascii c <? 32)%nat ||
  existsb (Ascii.eqb c)
    ["<"%char; ">"%char; ":"%char; ascii_of_nat 34; "/"%char;
     ascii_of_nat 92; "|"%char; "?"%char; "*"%char].

(** [title.replace(/.../g, '_')] *)
Fixpoint replace_unsafe (s : string) : string :=
  match s with
  | EmptyString => EmptyString
  | String c s' => String (if unsafe c then "_"%char else c) (replace_unsafe s')
  end.

(** [info.title.replace(...).slice(0, 100)] (lines 38 and 79) *)
Definition safeTitle (title : string) : string :=
  slice100 (replace_unsafe title).

(** Lines 27-32, 53-58 and 66-69. *)
Definition is_combined720p (f : Format) : bool :=
  (String.eqb (ext f) "mp4" || String.eqb (ext f) "webm") &&
  Js.neq (height f) 720 &&
  Js.sne (acodec f) "none" &&
  Js.sne (vcodec f) "none".

Definition is_videoOnly720p (f : Format) : bool :=
  (String.eqb (ext f) "mp4" || String.eqb (ext f) "webm") &&
  Js.neq (height f) 720 &&
  Js.seq (acodec f) "none" &&
  Js.sne (vcodec f) "none".

Definition is_audioFormat (f : Format) : bool :=
  Js.sne (acodec f) "none" &&
  Js.seq (vcodec f) "none" &&
  (String.eqb (ext f) "mp4" || String.eqb (ext f) "webm" ||
   String.eqb (ext f) "m4a").

(** [(a, b) => (b.bitrate || 0) - (a.bitrate || 0)] (line 70) *)
Definition by_bitrate_desc (a b : Format) : Z :=
  (Js.or0 (bitrate b) - Js.or0 (bitrate a))%Z.

Definition combined720p (formats : list Format) : option Format :=
  List.find is_combined720p formats.

Definition videoOnly720p (formats : list Format) : option Format :=
  List.find is_videoOnly720p formats.

Definition audioFormats (formats : list Format) : list Format :=
  Js.sort by_bitrate_desc (List.filter is_audioFormat formats).

(** What the script goes on to download: the combined format (line 35),
    else the video-only format and [audioFormats[0]] (lines 60-77). *)
Definition selection (formats : list Format) : SelectionResult :=
  match combined720p formats with
  | Some c => Combined c
  | None =>
      match videoOnly720p formats with
      | None => NoneFound NoVideoOnly
      | Some v =>
          match List.head (audioFormats formats) with
          | None => NoneFound NoAudioOnly
          | Some a => SplitPair v a
          end
      end
  end.

(** *** The run of the script

    What the script prints is kept beside the world of the calls it
    makes.  [info.title.replace] throws a [TypeError] when yt-dlp
    reports no title. *)

Definition url : string := "https://youtu.be/ER9SspLe4Hg?si=3i-sRRqywj8XSU4T".

Inductive Err :=
| Thrown (e : Exn)
| TypeError.

Inductive Line :=
| LTitle (title : Js.str)               (* 17 *)
| LAvailable                            (* 20 *)
| LFormat (id : string)                 (* 23 *)
| LCombinedFound (id : string)          (* 36-37 *)
| LDownloadingTo (outputFile : string)  (* 40 *)
| LDownloadComplete                     (* 45 *)
| LNoCombined                           (* 50 *)
| LNoVideoOnly                          (* 61 *)
| LNoAudioOnly                          (* 73 *)
| LDownloadingVideo (videoPath : string)   (* 84 *)
| LDownloadingAudio (audioPath : string)   (* 87 *)
| LMerging                              (* 90 *)
| EMerge                                (* 97 *)
| LMerged (outputPath : string)         (* 100 *)
| LDeleted                              (* 106 *)
| EDelete (e : Err)                     (* 108 *)
| EFetch (e : Err).                     (* 113 *)

Inductive Result (A : Type) :=
| Value (a : A)
| Raised (e : Err).
Arguments Value {A} a.
Arguments Raised {A} e.

Record Run := mkRun {
  machine : World;
  printed : list Line
}.

Definition P (A : Type) : Type := Run -> Result A * Run.

Definition pret {A} (a : A) : P A := fun r => (Value a, r).

Definition raise {A} (e : Err) : P A := fun r => (Raised e, r).

Definition pbind {A B} (m : P A) (k : A -> P B) : P B := fun r =>
  match m r with
  | (Value a, r') => k a r'
  | (Raised e, r') => (Raised e, r')
  end.

Definition ptry_catch {A} (m : P A) (h : Err -> P A) : P A := fun r =>
  match m r with
  | (Value a, r') => (Value a, r')
  | (Raised e, r') => h e r'
  end.

(** A call of bot.js's model, made by the script. *)
Definition lift {A} (m : M A) : P A := fun r =>
  match m (machine r) with
  | (Ret a, w) => (Value a, {| machine := w; printed := printed r |})
  | (Throw e, w) => (Raised (Thrown e), {| machine := w; printed := printed r |})
  end.

(** [console.log] and [console.error] *)
Definition say (l : Line) : P unit := fun r =>
  (Value tt, {| machine := machine r; printed := l :: printed r |}).

Declare Scope script_scope.
Delimit Scope script_scope with script.
Notation "x <- m ;; k" := (pbind m (fun x => k))
  (at level 100, m at next level, right associativity) : script_scope.
Notation "m ;; k" := (pbind m (fun _ => k))
  (at level 100, right associativity) : script_scope.

(** [xs.forEach(body)] *)
Fixpoint forEach {A} (xs : list A) (body : A -> P unit) : P unit :=
  match xs with
  | [] => pret tt
  | x :: xs' => pbind (body x) (fun _ => forEach xs' body)
  end.

Section Run.

Variable E : Collaborators.

Local Open Scope script_scope.

(** [exec(ffmpegCmd, callback)]: what ffmpeg did to the disk, and
    whether it ended without error. *)
Definition exec (videoPath audioPath outputPath : string) : P bool := fun r =>
  let w := machine r in
  match ffmpeg E w videoPath audioPath outputPath with
  | (ok, disk) =>
      (Value ok,
       {| machine := {| fs := disk;
                        log := Ffmpeg videoPath audioPath outputPath ok :: log w |};
          printed := printed r |})
  end.

(** The callback of [exec] (lines 95-110); [fs.unlinkSync] throws as
    [fs.promises.unlink] rejects. *)
Definition callback (videoPath audioPath outputPath : string) (ok : bool) : P unit :=
  if ok then
    say (LMerged outputPath) ;;
    ptry_catch
      (lift (unlink videoPath) ;;
       lift (unlink audioPath) ;;
       say LDeleted)
      (fun e => say (EDelete e))
  else say EMerge.

(** [info.title.replace(...).slice(0, 100)] on what yt-dlp reported. *)
Definition safeTitle_of (info : Info) : P string :=
  match title info with
  | Some t => pret (safeTitle t)
  | None => raise TypeError
  end.

(** The body of the script (lines 8-115).  [exec] is the last call of
    the function: its callback is run here where ffmpeg ends. *)
Definition main : P unit :=
  ptry_catch
    (info <- lift (youtubedl_json E url) ;;
     say (LTitle (title info)) ;;
     say LAvailable ;;
     forEach (formats info) (fun f => say (LFormat (format_id f))) ;;
     match combined720p (formats info) with
     | Some c =>
         say (LCombinedFound (format_id c)) ;;
         safe <- safeTitle_of info ;;
         let outputFile :=
           path_join (__dirname E)
             (safe +:+ "_" +:+ format_id c +:+ "." +:+ ext c) in
         say (LDownloadingTo outputFile) ;;
         lift (youtubedl E url (format_id c) outputFile) ;;
         say LDownloadComplete
     | None =>
         say LNoCombined ;;
         match videoOnly720p (formats info) with
         | None => say LNoVideoOnly
         | Some v =>
             match audioFormats (formats info) with
             | [] => say LNoAudioOnly
             | a :: _ =>
                 safe <- safeTitle_of info ;;
                 let videoPath :=
                   path_join (__dirname E) (safe +:+ "_video." +:+ ext v) in
                 let audioPath :=
                   path_join (__dirname E) (safe +:+ "_audio." +:+ ext a) in
                 let outputPath :=
                   path_join (__dirname E) (safe +:+ "_720p_merged.mp4") in
                 say (LDownloadingVideo videoPath) ;;
                 lift (youtubedl E url (format_id v) videoPath) ;;
                 say (LDownloadingAudio audioPath) ;;
                 lift (youtubedl E url (format_id a) audioPath) ;;
                 say LMerging ;;
                 ok <- exec videoPath audioPath outputPath ;;
                 callback videoPath audioPath outputPath ok
             end
         end
     end)
    (fun err => say (EFetch err)).

End Run.

(** The script is started: nothing has been called or printed. *)
Definition begin (disk : gmap string Z) : Run :=
  {| machine := start disk; printed := [] |}.

End Script.

(** Audio tracks that carry a [bitrate] and no [abr]. *)
Module Script_demo.

Definition a64 : Format :=
  mkFormat "249" "webm" None (Some "opus") (Some "none")
           (Some 500000%Z) None None (Some 64%Z).

Definition a128 : Format :=
  mkFormat "250" "webm" None (Some "opus") (Some "none")
           None (Some 900000%Z) None (Some 128%Z).

Definition a256 : Format :=
  mkFormat "251" "webm" None (Some "opus") (Some "none")
           None None None (Some 256%Z).

End Script_demo.

(** ** What the further properties are stated with *)

(** The message that names why nothing can be downloaded. *)
Definition notice_of (r : Reason) : Notice :=
  match r with
  | NoVideoOnly => NNoVideoOnly
  | NoAudioOnly => NNoAudioOnly
  end.

(** The calls that hand a file to Telegram. *)
Definition is_delivery (e : Event) : bool :=
  match e with
  | SendVideo _ _ _ | SendDocument _ _ _ => true
  | _ => false
  end.

Definition deliveries (l : list Event) : nat := length (List.filter is_delivery l).

(** The disk after the unlinks of [cleanupTemp], after its [rmdir] and
    at its end. *)
Definition without_files (files : list File) (disk : gmap string Z) : gmap string Z :=
  fold_left (fun m f => delete (path f) m) files disk.

Definition cleaned (files : list File) (tempDir zipPath : string)
    (disk : gmap string Z) : gmap string Z :=
  delete zipPath
    (filter (fun kv => negb (String.prefix (tempDir +:+ "/") (fst kv)))
       (without_files files disk)).

(** The calls of the single-video handler. *)
Definition single_event (e : Event) : Prop :=
  match e with
  | SendMessage _ _ _ | SendVideo _ _ _ | Download _ _ _ _ | Ffmpeg _ _ _ _
  | Stat _ _ | Unlink _ _ | Console _ => True
  | _ => False
  end.

(** The calls of the playlist handler. *)
Definition playlist_event (e : Event) : Prop :=
  match e with
  | SendVideo _ _ _ => False
  | _ => True
  end.

(** ** The message handler (bot.js lines 23-55)

    What [bot.on('message', ...)] does with one message.  Its own three
    replies and its [console.error] are logged beside the world of the
    two handlers it calls. *)

Record Message := mkMessage { chat_id : Z; text : Js.str }.

Inductive Reply :=
| RInvalidUrl      (* 30: Please send a valid YouTube or playlist URL *)
| RFetching        (* 34: Fetching video(s) info *)
| RFailed.         (* 53: Failed to download video or playlist *)

Inductive FrontEvent :=
| SendReply (chatId : Z) (text : Reply) (ok : bool)
| ConsoleError (err : Exn).

Record Session := mkSession {
  world : World;
  front : list FrontEvent
}.

Definition Front (A : Type) : Type := Session -> Outcome A * Session.

Section MessageHandler.

Variable E : Collaborators.

(** Whether Telegram accepts a reply of the message handler. *)
Variable telegram : Session -> Z -> Reply -> bool.

Definition fret {A} (a : A) : Front A := fun s => (Ret a, s).

Definition fbind {A B} (m : Front A) (k : A -> Front B) : Front B := fun s =>
  match m s with
  | (Ret a, s') => k a s'
  | (Throw e, s') => (Throw e, s')
  end.

Definition ftry_catch {A} (m : Front A) (h : Exn -> Front A) : Front A := fun s =>
  match m s with
  | (Ret a, s') => (Ret a, s')
  | (Throw e, s') => h e s'
  end.

(** A handler of bot.js, run on the world of the session. *)
Definition in_world {A} (m : M A) : Front A := fun s =>
  match m (world s) with
  | (o, w) => (o, {| world := w; front := front s |})
  end.

(** [await bot.sendMessage(chatId, text)], also as the value of
    [return]. *)
Definition sendReply (chatId : Z) (text : Reply) : Front unit := fun s =>
  let ok := telegram s chatId text in
  (if ok then Ret tt else Throw TelegramError,
   {| world := world s; front := SendReply chatId text ok :: front s |}).

(** [bot.sendMessage(chatId, text)] without [await] (line 53): the call
    is made and what becomes of it is not looked at. *)
Definition sendReply_unawaited (chatId : Z) (text : Reply) : Front unit := fun s =>
  (Ret tt,
   {| world := world s;
      front := SendReply chatId text (telegram s chatId text) :: front s |}).

Definition console_error (err : Exn) : Front unit := fun s =>
  (Ret tt, {| world := world s; front := ConsoleError err :: front s |}).

Definition onMessage (msg : Message) : Front unit :=
  let chatId := chat_id msg in
  match text msg with
  | None => fret tt
  | Some url =>
      if String.eqb url "" || String.prefix "/" url then fret tt
      else if negb (youtube_url url) then sendReply chatId RInvalidUrl
      else
        ftry_catch
          (fbind (sendReply chatId RFetching) (fun _ =>
           fbind (in_world (youtubedl_json E url)) (fun info =>
           if (1 <? length (entries info))%nat
           then in_world (handlePlaylist E chatId info)
           else in_world (handleSingleVideo E chatId info url))))
          (fun err =>
             fbind (console_error err) (fun _ =>
             sendReply_unawaited chatId RFailed))
  end.

End MessageHandler.

(** A message arrives: nothing has been logged yet. *)
Definition arrive (disk : gmap string Z) : Session :=
  {| world := start disk; front := [] |}.

(** The text of a message is one the handler goes on to fetch: it is
    not empty, is no command and passes the link test. *)
Definition is_link (msg : Message) : bool :=
  match text msg with
  | Some url =>
      negb (String.eqb url "") && negb (String.prefix "/" url) && youtube_url url
  | None => false
  end.

(** The file a call hands to Telegram, and the chat it goes to. *)
Definition sent_file (e : Event) : option (Z * string) :=
  match e with
  | SendVideo c p _ | SendDocument c p _ => Some (c, p)
  | _ => None
  end.

(** A log is kept newest first: in [later ++ e :: earlier] the calls of
    [earlier] were made before [e].  Every file handed to Telegram goes
    to [chatId], and the call made just before was the [fs.stat] of
    that file, which found it within the limit. *)
Definition measured_before_sent (chatId : Z) (evs : list Event) : Prop :=
  forall later e earlier c p,
    evs = later ++ e :: earlier -> sent_file e = Some (c, p) ->
    c = chatId /\
    exists size rest,
      earlier = Stat p (Some size) :: rest /\ (size <= MAX_SIZE)%Z.

(** Messages to run the message handler on. *)
Module Chat.

Definition accepting (_ : Session) (_ : Z) (_ : Reply) : bool := true.

Definition rejecting (_ : Session) (_ : Z) (_ : Reply) : bool := false.

Definition link : Message := mkMessage 7 (Some "https://youtu.be/ER9SspLe4Hg").

Definition greeting : Message := mkMessage 7 (Some "hello").

End Chat.

(** * Properties of the selection *)

(** ** What the predicates say *)

Lemma is_combined_spec f :
  is_combined f = true <->
  (ext f = "mp4" \/ ext f = "webm") /\ height f = Some 720%Z /\
  hasAudio f = true /\ hasVideo f = true /\ (size_of f <= MAX_SIZE)%Z.
Proof.
  unfold is_combined, hasAudio, hasVideo, under_size_limit, Js.neq.
  rewrite !andb_true_iff, orb_true_iff, !String.eqb_eq, Z.leb_le.
  destruct (height f) as [h|]; [rewrite Z.eqb_eq|]; intuition congruence.
Qed.

Lemma is_videoOnly_spec f :
  is_videoOnly f = true <->
  (ext f = "mp4" \/ ext f = "webm") /\ height f = Some 720%Z /\
  hasAudio f = false /\ hasVideo f = true /\ (size_of f <= MAX_SIZE)%Z.
Proof.
  unfold is_videoOnly, hasAudio, hasVideo, under_size_limit, Js.neq, Js.sne.
  rewrite !andb_true_iff, orb_true_iff, !String.eqb_eq, Z.leb_le, negb_false_iff.
  destruct (height f) as [h|]; [rewrite Z.eqb_eq|]; intuition congruence.
Qed.

Lemma is_audioOnly_spec f :
  is_audioOnly f = true <->
  hasAudio f = true /\ hasVideo f = false /\
  (ext f = "mp4" \/ ext f = "webm" \/ ext f = "m4a") /\
  (size_of f <= MAX_SIZE)%Z.
Proof.
  unfold is_audioOnly, hasAudio, hasVideo, under_size_limit, Js.sne.
  rewrite !andb_true_iff, !orb_true_iff, !String.eqb_eq, Z.leb_le, negb_false_iff.
  intuition congruence.
Qed.

(** ** [find] returns the first match *)

Lemma find_first {A} (p : A -> bool) (l : list A) (x : A) :
  List.find p l = Some x <->
  exists l1 l2, l = l1 ++ x :: l2 /\ p x = true /\
                (forall y, In y l1 -> p y = false).
Proof.
  split.
  - induction l as [|a l IH]; simpl; [discriminate|].
    destruct (p a) eqn:Hpa.
    + intros [= ->]. exists [], l. simpl. tauto.
    + intros Hf. destruct (IH Hf) as (l1 & l2 & -> & Hx & Hl1).
      exists (a :: l1), l2. simpl. repeat split; trivial.
      intros y [<-|Hy]; auto.
  - intros (l1 & l2 & -> & Hx & Hl1).
    induction l1 as [|a l1 IH]; simpl.
    + now rewrite Hx.
    + rewrite (Hl1 a) by (now left). apply IH. intros y Hy. apply Hl1. now right.
Qed.

Lemma find_is_Some {A} (p : A -> bool) (l : list A) :
  (exists x, In x l /\ p x = true) -> exists y, List.find p l = Some y.
Proof.
  intros (x & Hin & Hp). destruct (List.find p l) as [y|] eqn:Hf; eauto.
  now rewrite (find_none p l Hf x Hin) in Hp.
Qed.

(** ** The head of the sorted candidates *)

Section BestOf.
Context {A : Type} (rate : A -> Z).

Let cmp (a b : A) : Z := (rate b - rate a)%Z.

Lemma head_insert_sorted a l :
  head (Js.insert_sorted cmp a l) =
  match head l with
  | None => Some a
  | Some b => if (rate b <=? rate a)%Z then Some a else Some b
  end.
Proof.
  destruct l as [|b l]; simpl; trivial. unfold cmp.
  destruct (Z.leb_spec (rate b - rate a) 0), (Z.leb_spec (rate b) (rate a));
    trivial; lia.
Qed.

Lemma head_sort l : head (Js.sort cmp l) = first_max rate l.
Proof.
  induction l as [|a l IH]; simpl; trivial.
  now rewrite head_insert_sorted, IH.
Qed.

Lemma first_max_None l : first_max rate l = None -> l = [].
Proof.
  destruct l as [|a l]; simpl; trivial.
  destruct (first_max rate l); [destruct (_ <=? _)%Z|]; discriminate.
Qed.

Lemma first_max_In l m : first_max rate l = Some m -> In m l.
Proof.
  revert m. induction l as [|a l IH]; simpl; [discriminate|].
  intros m. destruct (first_max rate l) as [b|].
  - destruct (_ <=? _)%Z; intros [= <-]; auto.
  - intros [= <-]; auto.
Qed.

Lemma first_max_ge l m :
  first_max rate l = Some m -> forall y, In y l -> (rate y <= rate m)%Z.
Proof.
  revert m. induction l as [|a l IH]; simpl; [discriminate|].
  intros m. destruct (first_max rate l) as [b|] eqn:Hb.
  - destruct (Z.leb_spec (rate b) (rate a)); intros [= <-] y [<-|Hy];
      try lia; specialize (IH b eq_refl y Hy); lia.
  - apply first_max_None in Hb as ->. intros [= <-] y [<-|[]]. lia.
Qed.

(** Ties go to the earlier element: nothing before the chosen one
    reaches its rate. *)
Lemma first_max_first l m :
  first_max rate l = Some m ->
  exists l1 l2, l = l1 ++ m :: l2 /\ forall y, In y l1 -> (rate y < rate m)%Z.
Proof.
  revert m. induction l as [|a l IH]; simpl; [discriminate|].
  intros m. destruct (first_max rate l) as [b|] eqn:Hb.
  - destruct (Z.leb_spec (rate b) (rate a)); intros [= <-].
    + exists [], l. simpl. tauto.
    + destruct (IH b eq_refl) as (l1 & l2 & -> & Hl1).
      exists (a :: l1), l2. split; trivial.
      intros y [<-|Hy]; auto.
  - intros [= <-]. exists [], l. simpl. tauto.
Qed.
End BestOf.

Lemma bestAudio_first_max formats :
  bestAudio formats = first_max audio_rate (List.filter is_audioOnly formats).
Proof. unfold bestAudio, audioCandidates. apply (head_sort audio_rate). Qed.

Lemma bestAudio_is_Some formats :
  (exists a, In a formats /\ is_audioOnly a = true) ->
  exists b, bestAudio formats = Some b.
Proof.
  intros (a & Hin & Ha). rewrite bestAudio_first_max.
  destruct (first_max _ _) as [b|] eqn:Hb; eauto.
  apply first_max_None in Hb.
  assert (In a (List.filter is_audioOnly formats)) as Hf
    by (apply filter_In; auto).
  rewrite Hb in Hf. destruct Hf.
Qed.

(** ** The predicates of bot.js and the words of the claims *)

Lemma size_of_known f :
  size_of f = match known_size f with Some n => n | None => 0%Z end.
Proof.
  unfold size_of, known_size, stated, Js.or, Js.or0, Js.truthy.
  destruct (filesize f) as [n|], (filesize_approx f) as [m|]; simpl;
    repeat match goal with
    | |- context [(?x =? 0)%Z] => destruct (Z.eqb_spec x 0); simpl
    end; trivial; congruence.
Qed.

Lemma under_size_limit_within_cap f :
  (size_of f <= MAX_SIZE)%Z <-> within_cap f.
Proof.
  rewrite size_of_known. unfold within_cap.
  destruct (known_size f); [tauto|]. split; trivial. intros _. now vm_compute.
Qed.

Lemma hasAudio_carries f : hasAudio f = true <-> carries_audio f.
Proof.
  unfold hasAudio, carries_audio, Js.sne, Js.seq.
  destruct (acodec f) as [s|]; simpl; [|split; [discriminate|trivial]].
  rewrite negb_true_iff. destruct (String.eqb_spec s "none"); split;
    congruence.
Qed.

Lemma hasVideo_carries f : hasVideo f = true <-> carries_video f.
Proof.
  unfold hasVideo, carries_video, Js.sne, Js.seq.
  destruct (vcodec f) as [s|]; simpl; [|split; [discriminate|trivial]].
  rewrite negb_true_iff. destruct (String.eqb_spec s "none"); split;
    congruence.
Qed.

Lemma is_combined_qualifies f : is_combined f = true <-> qualifies_combined f.
Proof.
  rewrite is_combined_spec, hasAudio_carries, hasVideo_carries,
    under_size_limit_within_cap.
  unfold qualifies_combined, combined_under. simpl. intuition.
Qed.

Lemma is_videoOnly_qualifies f : is_videoOnly f = true <-> qualifies_videoOnly f.
Proof.
  rewrite is_videoOnly_spec, <- not_true_iff_false, hasAudio_carries,
    hasVideo_carries, under_size_limit_within_cap.
  unfold qualifies_videoOnly, videoOnly_under. simpl. intuition.
Qed.

Lemma is_audioOnly_qualifies f : is_audioOnly f = true <-> qualifies_audioOnly f.
Proof.
  rewrite is_audioOnly_spec, <- not_true_iff_false, hasAudio_carries,
    hasVideo_carries, under_size_limit_within_cap.
  unfold qualifies_audioOnly, audioOnly_under. simpl. intuition.
Qed.

Lemma not_qualifies {p : Format -> bool} {q : Format -> Prop} :
  (forall f, p f = true <-> q f) -> forall f, p f = false <-> ~ q f.
Proof.
  intros H f. rewrite <- H. destruct (p f); split; congruence.
Qed.

Lemma audio_rate_stated f : audio_rate f = stated_rate f.
Proof.
  unfold audio_rate, stated_rate, stated, Js.or, Js.or0, Js.truthy.
  destruct (abr f) as [n|], (bitrate f) as [m|]; simpl;
    repeat match goal with
    | |- context [(?x =? 0)%Z] => destruct (Z.eqb_spec x 0); simpl
    end; trivial; congruence.
Qed.

(** ** The claims on the selection *)

(** C1, as the spec states it, fails: formats without any size are
    selected although the cap [MAX_SIZE] is enforced, as the combined
    format, as the video part and as the audio part. *)
Lemma unknown_size_is_selected :
  (size_unknown Demo.f22 /\ select [Demo.f22] = Combined Demo.f22) /\
  (size_unknown Demo.f136 /\ size_unknown Demo.f140 /\
   select [Demo.f136; Demo.f140] = SplitPair Demo.f136 Demo.f140).
Proof. repeat split. Qed.

(** C1, amended: a format without a size counts as 0 bytes, so it passes
    the cap and each of the three predicates looks at container, height
    and codecs only; such a format is taken as the combined one whenever
    no earlier format of the catalog matches. *)
Theorem unknown_size_passes_the_cap (f : Format) (Hf : size_unknown f) :
  size_of f = 0%Z /\ under_size_limit f = true /\
  is_combined f =
    ((String.eqb (ext f) "mp4" || String.eqb (ext f) "webm") &&
     Js.neq (height f) 720 && hasAudio f && hasVideo f) /\
  is_videoOnly f =
    ((String.eqb (ext f) "mp4" || String.eqb (ext f) "webm") &&
     Js.neq (height f) 720 && negb (hasAudio f) && hasVideo f) /\
  is_audioOnly f =
    (hasAudio f && negb (hasVideo f) &&
     (String.eqb (ext f) "mp4" || String.eqb (ext f) "webm" ||
      String.eqb (ext f) "m4a")) /\
  forall l1 l2,
    (forall y, In y l1 -> is_combined y = false) ->
    (ext f = "mp4" \/ ext f = "webm") -> height f = Some 720%Z ->
    hasAudio f = true -> hasVideo f = true ->
    select (l1 ++ f :: l2) = Combined f.
Proof.
  destruct Hf as [Hs Ha].
  assert (size_of f = 0%Z) as H0 by (unfold size_of; now rewrite Hs, Ha).
  assert (under_size_limit f = true) as Hu
    by (unfold under_size_limit; now rewrite H0).
  repeat split; trivial.
  - unfold is_combined, hasAudio, hasVideo. rewrite Hu. apply andb_true_r.
  - unfold is_videoOnly, hasAudio, hasVideo, Js.sne. rewrite Hu, negb_involutive.
    apply andb_true_r.
  - unfold is_audioOnly, hasAudio, hasVideo, Js.sne. rewrite Hu, negb_involutive.
    apply andb_true_r.
  - intros l1 l2 Hl1 He Hh Hau Hvi. unfold select, combined.
    assert (List.find is_combined (l1 ++ f :: l2) = Some f) as ->; trivial.
    apply find_first. exists l1, l2. repeat split; trivial.
    apply is_combined_spec. rewrite H0. repeat split; trivial. discriminate.
Qed.

Lemma unknown_size_passes_the_cap_witness :
  select ([Demo.f136; Demo.f140] ++ Demo.f22 :: [Demo.f18]) = Combined Demo.f22.
Proof.
  apply (unknown_size_passes_the_cap Demo.f22); try reflexivity.
  - split; reflexivity.
  - intros y [<-|[<-|[]]]; reflexivity.
  - left; reflexivity.
Defined.

(** A closed format has what a reading of the claims asks for. *)
Ltac qualify :=
  repeat split; try discriminate; try (simpl; tauto); try (now vm_compute);
  try (let H := fresh in intros H; now apply H).

(** C5, as the spec states it, fails: with "within the cap" read as the
    spec words it (a size is stated and at most [MAX_SIZE]), the first
    qualifying format of the catalog [f22; f18] is f18, the only one
    that states a size; the selection is f22, which states none. *)
Lemma unknown_size_comes_first :
  (forall y, In y [Demo.f22] -> ~ combined_under known_within_cap y) /\
  combined_under known_within_cap Demo.f18 /\
  select ([Demo.f22] ++ Demo.f18 :: []) = Combined Demo.f22 /\
  Demo.f22 <> Demo.f18.
Proof.
  split; [|split; [|split]].
  - intros y [<-|[]] (_ & _ & _ & _ & Hcap). exact Hcap.
  - qualify.
  - reflexivity.
  - discriminate.
Qed.

(** C5, amended: when some format of the catalog is in mp4 or webm, has
    height 720, carries audio and video and states no size above
    [MAX_SIZE] (none at all included), the selection is [Combined]
    with the first such format in catalog order, whatever follows
    it. *)
Theorem select_first_combined (formats : list Format)
    (H : exists f, In f formats /\ qualifies_combined f) :
  exists l1 c l2,
    formats = l1 ++ c :: l2 /\ qualifies_combined c /\
    (forall y, In y l1 -> ~ qualifies_combined y) /\
    select formats = Combined c.
Proof.
  destruct H as (f & Hin & Hf). apply is_combined_qualifies in Hf.
  destruct (find_is_Some is_combined formats (ex_intro _ f (conj Hin Hf)))
    as [c Hc].
  destruct (proj1 (find_first _ _ _) Hc) as (l1 & l2 & Hl & Hpc & Hl1).
  exists l1, c, l2. unfold select, combined. rewrite Hc.
  split; [exact Hl|split; [|split; [|reflexivity]]].
  - now apply is_combined_qualifies.
  - intros y Hy. apply (not_qualifies is_combined_qualifies). auto.
Qed.

Lemma select_first_combined_witness :
  exists l1 c l2,
    [Demo.f136; Demo.f18; Demo.f22] = l1 ++ c :: l2 /\ qualifies_combined c /\
    (forall y, In y l1 -> ~ qualifies_combined y) /\
    select [Demo.f136; Demo.f18; Demo.f22] = Combined c.
Proof.
  apply (select_first_combined [Demo.f136; Demo.f18; Demo.f22]).
  exists Demo.f22. split; [simpl; tauto|].
  apply is_combined_qualifies. reflexivity.
Defined.

(** Two qualifying formats: the earlier one wins, in either order. *)
Example select_tie_break :
  select [Demo.f18; Demo.f22] = Combined Demo.f18 /\
  select [Demo.f22; Demo.f18] = Combined Demo.f22.
Proof. split; reflexivity. Qed.

(** A format above the cap, or at another height, or in another
    container, is passed over. *)
Example select_passes_over :
  let big := mkFormat "22" "mp4" (Some 720%Z) (Some "mp4a.40.2")
               (Some "avc1.64001F") (Some (MAX_SIZE + 1)%Z) None None None in
  let low := mkFormat "18" "mp4" (Some 360%Z) (Some "mp4a.40.2")
               (Some "avc1.42001E") None None None None in
  let mkv := mkFormat "95" "mkv" (Some 720%Z) (Some "mp4a.40.2")
               (Some "avc1.64001F") None None None None in
  select [big; low; mkv; Demo.f18] = Combined Demo.f18.
Proof. reflexivity. Qed.

(** C6, as the spec states it, fails: with "within the cap" read as the
    spec words it, the only qualifying audio track of the catalog is
    the one of 1000 bytes at 128k, so it is the qualifying track of
    highest bit rate; the selection takes the track at 256k, which
    states no size. *)
Lemma unknown_size_audio_is_taken :
  let formats := [Sized.f136; Demo.f141; Sized.f140] in
  (forall f, In f formats -> ~ combined_under known_within_cap f) /\
  videoOnly_under known_within_cap Sized.f136 /\
  audioOnly_under known_within_cap Sized.f140 /\
  (forall a, In a formats -> audioOnly_under known_within_cap a ->
             a = Sized.f140) /\
  select formats = SplitPair Sized.f136 Demo.f141 /\
  Demo.f141 <> Sized.f140.
Proof.
  cbv zeta. split; [|split; [|split; [|split; [|split]]]].
  - intros f [<-|[<-|[<-|[]]]] (_ & Hh & Ha & _); try discriminate Hh.
    now apply Ha.
  - qualify.
  - qualify.
  - intros a [<-|[<-|[<-|[]]]] (Ha & _ & _ & Hcap); trivial.
    + exfalso. now apply Ha.
    + destruct Hcap.
  - reflexivity.
  - discriminate.
Qed.

(** C6, amended: with no qualifying combined format, a qualifying
    video-only format and at least one qualifying audio track (audio
    and no video, in mp4, webm or m4a, no size stated above
    [MAX_SIZE]), the selection is [SplitPair] of the first qualifying
    video-only format and a qualifying audio track whose rate ([abr],
    else [bitrate], else 0) no other qualifying track exceeds. *)
Theorem select_best_audio (formats : list Format)
    (Hc : forall f, In f formats -> ~ qualifies_combined f)
    (Hv : exists v, In v formats /\ qualifies_videoOnly v)
    (Ha : exists a, In a formats /\ qualifies_audioOnly a) :
  exists v a,
    select formats = SplitPair v a /\
    (exists l1 l2, formats = l1 ++ v :: l2 /\ qualifies_videoOnly v /\
                   forall y, In y l1 -> ~ qualifies_videoOnly y) /\
    In a formats /\ qualifies_audioOnly a /\
    forall c, In c formats -> qualifies_audioOnly c ->
              (stated_rate c <= stated_rate a)%Z.
Proof.
  destruct Hv as (v0 & Hv0in & Hv0). apply is_videoOnly_qualifies in Hv0.
  destruct Ha as (a0 & Ha0in & Ha0). apply is_audioOnly_qualifies in Ha0.
  destruct (find_is_Some _ _ (ex_intro _ v0 (conj Hv0in Hv0))) as [v Hfv].
  destruct (bestAudio_is_Some _ (ex_intro _ a0 (conj Ha0in Ha0))) as [a Hba].
  exists v, a. unfold select, combined, videoOnly.
  destruct (List.find is_combined formats) as [c|] eqn:Hfc.
  { apply find_some in Hfc as [Hin Hp].
    apply is_combined_qualifies in Hp. now destruct (Hc c Hin). }
  rewrite Hfv, Hba. rewrite bestAudio_first_max in Hba.
  pose proof (first_max_In _ _ _ Hba) as Hin. apply filter_In in Hin as [Hin Hp].
  destruct (proj1 (find_first _ _ _) Hfv) as (l1 & l2 & Hl & Hpv & Hl1).
  split; [reflexivity|split; [|split; [exact Hin|split]]].
  - exists l1, l2. split; [exact Hl|split].
    + now apply is_videoOnly_qualifies.
    + intros y Hy. apply (not_qualifies is_videoOnly_qualifies). auto.
  - now apply is_audioOnly_qualifies.
  - intros c Hcin Hcp. rewrite <- !audio_rate_stated.
    apply (first_max_ge _ _ _ Hba). apply filter_In.
    split; trivial. now apply is_audioOnly_qualifies.
Qed.

Lemma select_best_audio_witness :
  exists v a,
    select [Demo.f139; Demo.f136; Demo.f141; Demo.f140] = SplitPair v a /\
    (exists l1 l2,
       [Demo.f139; Demo.f136; Demo.f141; Demo.f140] = l1 ++ v :: l2 /\
       qualifies_videoOnly v /\
       forall y, In y l1 -> ~ qualifies_videoOnly y) /\
    In a [Demo.f139; Demo.f136; Demo.f141; Demo.f140] /\
    qualifies_audioOnly a /\
    forall c, In c [Demo.f139; Demo.f136; Demo.f141; Demo.f140] ->
              qualifies_audioOnly c -> (stated_rate c <= stated_rate a)%Z.
Proof.
  apply (select_best_audio [Demo.f139; Demo.f136; Demo.f141; Demo.f140]).
  - intros f [<-|[<-|[<-|[<-|[]]]]];
      apply (not_qualifies is_combined_qualifies); reflexivity.
  - exists Demo.f136. split; [simpl; tauto|].
    apply is_videoOnly_qualifies. reflexivity.
  - exists Demo.f139. split; [simpl; tauto|].
    apply is_audioOnly_qualifies. reflexivity.
Defined.

(** Rates 64, 128 and 256: the track at 256 is downloaded. *)
Example select_256k :
  select [Demo.f139; Demo.f136; Demo.f140; Demo.f141] =
  SplitPair Demo.f136 Demo.f141.
Proof. reflexivity. Qed.

Lemma filter_split {A} (p : A -> bool) (l : list A) (m1 : list A) (a : A)
    (m2 : list A) :
  List.filter p l = m1 ++ a :: m2 ->
  exists l1 l2, l = l1 ++ a :: l2 /\ List.filter p l1 = m1 /\
                List.filter p l2 = m2.
Proof.
  revert m1. induction l as [|x l IH]; intros m1; simpl.
  - destruct m1; discriminate.
  - destruct (p x) eqn:Hx.
    + destruct m1 as [|y m1]; simpl; intros [= -> Hm].
      * exists [], l. auto.
      * destruct (IH _ Hm) as (l1 & l2 & -> & H1 & H2).
        exists (y :: l1), l2. simpl. rewrite Hx, H1. auto.
    + intros Hm. destruct (IH _ Hm) as (l1 & l2 & -> & H1 & H2).
      exists (x :: l1), l2. simpl. rewrite Hx. auto.
Qed.

(** X3: the audio track taken is a qualifying track of the catalog that
    reaches the highest rate among the qualifying tracks, and the
    first one to do so in catalog order: every qualifying track before
    it has a strictly lower rate, none after it a higher one. *)
Lemma bestAudio_earliest formats a :
  bestAudio formats = Some a ->
  exists l1 l2,
    formats = l1 ++ a :: l2 /\ qualifies_audioOnly a /\
    (forall y, In y l1 -> qualifies_audioOnly y ->
               (stated_rate y < stated_rate a)%Z) /\
    (forall y, In y l2 -> qualifies_audioOnly y ->
               (stated_rate y <= stated_rate a)%Z).
Proof.
  rewrite bestAudio_first_max. intros Hba.
  destruct (first_max_first _ _ _ Hba) as (m1 & m2 & Hm & Hlt).
  destruct (filter_split _ _ _ _ _ Hm) as (l1 & l2 & -> & <- & <-).
  pose proof (first_max_In _ _ _ Hba) as Hin. apply filter_In in Hin as [_ Hp].
  exists l1, l2. split; [reflexivity|split; [|split]].
  - now apply is_audioOnly_qualifies.
  - intros y Hy Hq. rewrite <- !audio_rate_stated. apply Hlt, filter_In.
    split; trivial. now apply is_audioOnly_qualifies.
  - intros y Hy Hq. rewrite <- !audio_rate_stated.
    apply (first_max_ge _ _ _ Hba). rewrite Hm.
    apply in_or_app; right; right. apply filter_In.
    split; trivial. now apply is_audioOnly_qualifies.
Qed.

(** C9: whatever the catalog, a selected combined format has both
    streams, the video part has video and the audio part has audio; so no
    selected format lacks both. *)
Theorem select_never_streamless (formats : list Format) :
  match select formats with
  | Combined c => hasVideo c = true /\ hasAudio c = true
  | SplitPair v a => hasVideo v = true /\ hasAudio a = true
  | NoneFound _ => True
  end /\
  forall d, In d (chosen (select formats)) ->
            In d formats /\ ~ (hasVideo d = false /\ hasAudio d = false).
Proof.
  unfold select, combined, videoOnly.
  destruct (List.find is_combined formats) as [c|] eqn:Hc.
  { apply find_some in Hc as [Hin Hc]. apply is_combined_spec in Hc.
    split; [tauto|]. intros d [<-|[]]. split; trivial. intuition congruence. }
  destruct (List.find is_videoOnly formats) as [v|] eqn:Hv; [|simpl; tauto].
  destruct (bestAudio formats) as [a|] eqn:Ha; [|simpl; tauto].
  apply find_some in Hv as [Hvin Hv]. apply is_videoOnly_spec in Hv.
  rewrite bestAudio_first_max in Ha. apply first_max_In in Ha.
  apply filter_In in Ha as [Hain Ha]. apply is_audioOnly_spec in Ha.
  split; [tauto|]. intros d [<-|[<-|[]]]; split; trivial; intuition congruence.
Qed.

(** * Properties of the pipelines *)

(** [cleanupFile] never throws: afterwards the path is gone, and the log
    tells whether there was something to delete. *)
Lemma cleanupFile_run p w :
  cleanupFile p w =
  (Ret tt, {| fs := delete p (fs w); log := Unlink p (present (fs w) p) :: log w |}).
Proof.
  unfold cleanupFile, try_catch, unlink, present.
  destruct (fs w !! p) eqn:Hp; trivial.
  unfold ret, emit. now rewrite (delete_id _ _ Hp).
Qed.

(** Symbolic execution of a handler: unfold the control operators, replace
    each clean-up by its effect, and split on every answer of a
    collaborator. *)
Ltac run_unfold :=
  cbv beta iota zeta delta
    [bind try_catch try_finally ret
     sendMessage sendVideo sendDocument youtubedl youtubedl_json console
     stat ffmpegMerge zipFiles mkdtemp rmdir emit];
  cbn [fs log fst snd].

Ltac run_step :=
  match goal with
  | |- context [cleanupFile ?p ?w] => rewrite (cleanupFile_run p w)
  | |- context [match ?x with _ => _ end] =>
      lazymatch x with
      | context [match _ with _ => _ end] => fail
      | _ => destruct x eqn:?
      end
  end; run_unfold.

Ltac run := run_unfold; repeat run_step.

(** The three branches of [handleSingleVideo], each run to its ends. *)
Ltac run_single :=
  unfold after_single, handleSingleVideo, start;
  match goal with
  | |- context [combined (formats ?info)] =>
      destruct (combined (formats info)) as [?c|];
      [|destruct (videoOnly (formats info)) as [?v|];
        [destruct (bestAudio (formats info)) as [?a|]|]]
  end; run.

(** Membership in a log made of written-out calls and of segments known
    by a [Forall] (the calls of the playlist loop, those of the
    clean-up). *)
Ltac in_log :=
  repeat match goal with
  | H : In _ (_ ++ _) |- _ => apply in_app_or in H; destruct H as [H|H]
  | H : In _ (_ :: _) |- _ => destruct H as [H|H]
  | H : In _ [] |- _ => destruct H
  | H : In ?e ?evs, HF : Forall _ ?evs |- _ =>
      let HP := fresh in
      pose proof (proj1 (List.Forall_forall _ _) HF e H) as HP;
      clear H; simpl in HP; try contradiction
  | H : @eq Event _ ?e |- _ => is_var e; subst e
  | H : @eq Event _ _ |- _ => first [discriminate H | injection H as ?; subst]
  end.

(** C2: in a run of the single-video handler in which ffmpeg fails, the
    video part, the audio part and the merged output that were handed
    to ffmpeg are all unlinked: none of the three paths holds a file when
    the handler returns. *)
Theorem failed_merge_leaves_no_parts
    (E : Collaborators) (chatId : Z) (info : Info) (u : string)
    (disk : gmap string Z) (videoPath audioPath outputPath : string)
    (Hmerge : In (Ffmpeg videoPath audioPath outputPath false)
                 (log (after_single E chatId info u disk))) :
  let w := after_single E chatId info u disk in
  (fs w !! videoPath = None /\ fs w !! audioPath = None /\
   fs w !! outputPath = None) /\
  (exists b, In (Unlink videoPath b) (log w)) /\
  (exists b, In (Unlink audioPath b) (log w)) /\
  (exists b, In (Unlink outputPath b) (log w)).
Proof.
  revert Hmerge. run_single; intros Hmerge; in_log.
  all: split;
    [repeat split; rewrite !lookup_delete; repeat case_decide; congruence
    |repeat split; eexists; simpl; eauto 10].
Qed.

Ltac in_list := repeat (first [left; reflexivity | right]).

Lemma failed_merge_leaves_no_parts_witness :
  let w := after_single (Scenario.env Scenario.online 1000 false Scenario.clip_split)
             1 Scenario.clip_split "https://youtu.be/ER9SspLe4Hg" ∅ in
  (fs w !! "/app/clip_video.mp4" = None /\
   fs w !! "/app/clip_audio.m4a" = None /\
   fs w !! "/app/clip_720p_merged.mp4" = None) /\
  (exists b, In (Unlink "/app/clip_video.mp4" b) (log w)) /\
  (exists b, In (Unlink "/app/clip_audio.m4a" b) (log w)) /\
  (exists b, In (Unlink "/app/clip_720p_merged.mp4" b) (log w)).
Proof.
  apply (failed_merge_leaves_no_parts
           (Scenario.env Scenario.online 1000 false Scenario.clip_split)
           1 Scenario.clip_split "https://youtu.be/ER9SspLe4Hg" ∅
           "/app/clip_video.mp4" "/app/clip_audio.m4a"
           "/app/clip_720p_merged.mp4").
  vm_compute. in_list.
Defined.

(** The calls of that run, in order: the parts are downloaded, ffmpeg
    fails (its partial output is on disk), the user is told, and the
    three files are unlinked. *)
Example failed_merge_trace :
  trace (after_single
           (Scenario.env Scenario.online 1000 false Scenario.clip_split)
           1 Scenario.clip_split "https://youtu.be/ER9SspLe4Hg" ∅) =
  [SendMessage 1 (NProcessing "clip") true;
   SendMessage 1 NNoCombined true;
   SendMessage 1 (NDownloadingVideo "136") true;
   Download "https://youtu.be/ER9SspLe4Hg" "136" "/app/clip_video.mp4" true;
   SendMessage 1 (NDownloadingAudio "141") true;
   Download "https://youtu.be/ER9SspLe4Hg" "141" "/app/clip_audio.m4a" true;
   SendMessage 1 NMerging true;
   Ffmpeg "/app/clip_video.mp4" "/app/clip_audio.m4a"
     "/app/clip_720p_merged.mp4" false;
   Console DFfmpeg;
   Console DDownloadOrMerge;
   SendMessage 1 NDownloadOrMergeError true;
   Unlink "/app/clip_video.mp4" true;
   Unlink "/app/clip_audio.m4a" true;
   Unlink "/app/clip_720p_merged.mp4" true].
Proof. vm_compute. reflexivity. Qed.

(** ** The size gate of the single-video handler *)

Ltac gate_facts :=
  repeat match goal with
  | H : (_ >? _)%Z = true |- _ => apply Z.gtb_lt in H
  | H : (_ >? _)%Z = false |- _ => rewrite Z.gtb_ltb in H; apply Z.ltb_ge in H
  end.

(** X1: what does hold of a file found larger than [MAX_SIZE]: it is never
    passed to [sendVideo], the matching "exceeds 200MB" message is sent,
    and a merged file is unlinked on every path, a directly downloaded
    one unless Telegram rejected both the "exceeds 200MB" and the "error
    reading" message. *)
Lemma oversize_gate_single E chatId info u disk p size :
  let w := after_single E chatId info u disk in
  In (Stat p (Some size)) (log w) -> (size > MAX_SIZE)%Z ->
  (forall ok, ~ In (SendVideo chatId p ok) (log w)) /\
  (exists ok, In (SendMessage chatId NDownloadedTooLarge ok) (log w) \/
              In (SendMessage chatId NMergedTooLarge ok) (log w)) /\
  ((exists v a ok, In (Ffmpeg v a p ok) (log w)) -> fs w !! p = None) /\
  (fs w !! p = None \/ In (SendMessage chatId NStatError false) (log w)).
Proof.
  run_single; intros Hstat Hsize; in_log; gate_facts; try lia.
  all: repeat split;
    [ intros ok Hin; in_log
    | eexists; simpl; eauto 12
    | intros (? & ? & ? & Hin); in_log;
      rewrite ?lookup_delete; repeat case_decide; congruence
    | first [ left; rewrite ?lookup_delete; repeat case_decide; congruence
            | right; simpl; tauto ] ].
Qed.

(** C3 fails on the combined path.  A combined format is downloaded and
    found to weigh 300000000 bytes; Telegram rejects the "exceeds 200MB"
    message and then the "error reading" message sent from the [catch]
    block, so the handler throws before [cleanupFile(outputPath)]: the
    file is never unlinked and stays on disk.  (Nothing is delivered, and
    the oversize message was attempted.) *)
Lemma oversize_combined_file_left_behind :
  let w := after_single
             (Scenario.env Scenario.blocked 300000000 true Scenario.clip_combined)
             1 Scenario.clip_combined "https://youtu.be/ER9SspLe4Hg" ∅ in
  In (Stat "/app/clip_22.mp4" (Some 300000000%Z)) (log w) /\
  (300000000 > MAX_SIZE)%Z /\
  (forall ok, ~ In (SendVideo 1 "/app/clip_22.mp4" ok) (log w)) /\
  In (SendMessage 1 NDownloadedTooLarge false) (log w) /\
  (forall b, ~ In (Unlink "/app/clip_22.mp4" b) (log w)) /\
  fs w !! "/app/clip_22.mp4" = Some 300000000%Z.
Proof.
  cbv zeta. repeat split.
  - vm_compute. in_list.
  - intros ok Hin. vm_compute in Hin. intuition discriminate.
  - vm_compute. in_list.
  - intros b Hin. vm_compute in Hin. intuition discriminate.
Qed.

(** ** The playlist loop *)

Lemma fetched_app l1 l2 : fetched (l1 ++ l2) = fetched l1 ++ fetched l2.
Proof.
  induction l1 as [|e l1 IH]; simpl; trivial.
  destruct e; simpl; now rewrite ?IH.
Qed.

Lemma skips_app l1 l2 : skips (l1 ++ l2) = (skips l1 + skips l2)%nat.
Proof. unfold skips. now rewrite List.filter_app, length_app. Qed.

(** Closes [e1 :: ... :: en :: l = ?evs ++ l]. *)
Ltac log_prefix l base :=
  lazymatch l with
  | base => constr:(@nil Event)
  | ?e :: ?l' => let r := log_prefix l' base in constr:(e :: r)
  end.

Ltac split_log :=
  lazymatch goal with
  | |- ?l = ?evs ++ ?base =>
      let r := log_prefix l base in unify evs r; reflexivity
  end.

(** One turn of the loop never throws; it asks yt-dlp for the JSON of
    its video once, touches only files inside the temporary directory,
    and either pushes one file or logs one skip. *)
Lemma playlist_video_run E tempDir downloadedFiles video w :
  exists files w' evs,
    playlist_video E tempDir downloadedFiles video w = (Ret files, w') /\
    log w' = evs ++ log w /\
    fetched evs = [videoUrl video] /\
    Forall (video_event tempDir) evs /\
    ((files = downloadedFiles /\ skips evs = 1%nat) \/
     (exists f, files = downloadedFiles ++ [f] /\ inside tempDir (path f) /\
                skips evs = 0%nat)).
Proof.
  unfold playlist_video. run.
  all: eexists _, _, _; split; [reflexivity|]; cbn [log]; split; [split_log|].
  all: split; [reflexivity|].
  all: split;
    [repeat (apply List.Forall_cons;
             [cbn [video_event]; unfold inside; repeat split; eauto|]);
     apply List.Forall_nil
    |first [left; split; reflexivity
           |right; eexists; repeat split; unfold inside; cbn [path]; eauto]].
Qed.

(** The whole loop: it never throws, whatever happens to single videos,
    and goes through all the entries it is given, in order. *)
Lemma playlist_loop_run E tempDir entries :
  forall downloadedFiles w,
    Forall (fun f => inside tempDir (path f)) downloadedFiles ->
    exists files w' evs,
      for_of entries (playlist_video E tempDir) downloadedFiles w = (Ret files, w') /\
      log w' = evs ++ log w /\
      rev (fetched evs) = map videoUrl entries /\
      Forall (video_event tempDir) evs /\
      (length files + skips evs = length downloadedFiles + length entries)%nat /\
      Forall (fun f => inside tempDir (path f)) files.
Proof.
  induction entries as [|video entries IH]; intros acc w Hacc.
  - exists acc, w, []. simpl. repeat split; trivial.
  - destruct (playlist_video_run E tempDir acc video w)
      as (acc1 & w1 & evs1 & Hrun1 & Hlog1 & Hf1 & Hev1 & Hacc1).
    assert (Forall (fun f => inside tempDir (path f)) acc1) as Hin1.
    { destruct Hacc1 as [[-> _]|(f & -> & Hf & _)]; trivial.
      apply Forall_app. split; trivial. now constructor. }
    destruct (IH acc1 w1 Hin1)
      as (acc2 & w2 & evs2 & Hrun2 & Hlog2 & Hf2 & Hev2 & Hlen2 & Hin2).
    exists acc2, w2, (evs2 ++ evs1).
    simpl. unfold bind. rewrite Hrun1, Hrun2, Hlog2, Hlog1.
    rewrite fetched_app, rev_app_distr, Hf1, Hf2, skips_app, <- app_assoc.
    repeat split; trivial.
    + apply Forall_app. now split.
    + destruct Hacc1 as [[-> Hs]|(f & -> & _ & Hs)];
        rewrite ?length_app in *; simpl in *; lia.
Qed.

(** [cleanupTemp] never throws; it unlinks the files it is given and the
    archive, and removes the temporary directory. *)
Lemma cleanupTemp_run files tempDir zipPath w :
  exists w' evs,
    cleanupTemp files tempDir zipPath w = (Ret tt, w') /\
    log w' = evs ++ log w /\
    Forall (cleanup_event files tempDir zipPath) evs /\
    fs w' !! zipPath = None.
Proof.
  assert (forall l w0, (forall p, In p (map path l) -> In p (map path files)) ->
            exists w1 evs,
              for_of l (fun _ f => cleanupFile (path f)) tt w0 = (Ret tt, w1) /\
              log w1 = evs ++ log w0 /\
              Forall (cleanup_event files tempDir zipPath) evs) as Hloop.
  { induction l as [|f l IH]; intros w0 Hl.
    - exists w0, []. repeat split; trivial.
    - simpl. unfold bind. rewrite cleanupFile_run.
      destruct (IH {| fs := delete (path f) (fs w0);
                      log := Unlink (path f) (present (fs w0) (path f)) :: log w0 |})
        as (w1 & evs & Hrun & Hlog & Hev).
      { intros p Hp. apply Hl. now right. }
      exists w1, (evs ++ [Unlink (path f) (present (fs w0) (path f))]).
      rewrite Hrun, Hlog, <- app_assoc. repeat split; trivial.
      apply Forall_app. split; trivial. constructor; [|constructor].
      right. apply Hl. now left. }
  destruct (Hloop files w (fun p Hp => Hp)) as (w1 & evs & Hrun & Hlog & Hev).
  unfold cleanupTemp, bind. rewrite Hrun. run_unfold. rewrite cleanupFile_run.
  eexists _, (Unlink zipPath _ :: Rmdir tempDir :: evs). split; [reflexivity|].
  cbn [log fs]. rewrite Hlog. repeat split; trivial.
  - repeat (apply List.Forall_cons; [simpl; auto|]). trivial.
  - apply lookup_delete_eq.
Qed.

(** ** What the playlist handler does around the loop *)

Lemma fetched_cleanup files tempDir zipPath evs :
  Forall (cleanup_event files tempDir zipPath) evs -> fetched evs = [].
Proof.
  induction 1 as [|e evs He _ IH]; trivial.
  destruct e; simpl in *; trivial; contradiction.
Qed.

Lemma skips_cons e l :
  skips (e :: l) = ((if is_skip e then 1 else 0) + skips l)%nat.
Proof. unfold skips. simpl. now destruct (is_skip e). Qed.

Lemma skips_cleanup files tempDir zipPath evs :
  Forall (cleanup_event files tempDir zipPath) evs -> skips evs = 0%nat.
Proof.
  induction 1 as [|e evs He _ IH]; trivial.
  rewrite skips_cons, IH. destruct e; simpl in *; trivial; contradiction.
Qed.

(** Runs [handlePlaylist] to its ends, with the loop and the clean-up
    replaced by what the lemmas above say of them. *)
Ltac run_playlist :=
  unfold attempts, survivors, after_playlist, handlePlaylist, start; run_unfold;
  repeat first
    [ match goal with
      | |- context [for_of ?xs (playlist_video ?E ?d) [] ?w] =>
          let H := fresh "Hrun" in
          destruct (playlist_loop_run E d xs [] w (List.Forall_nil _))
            as (?files & ?wl & ?evl & H & ?Hlog & ?Hfetched & ?Hvideo & ?Hlen & ?Hfiles);
          rewrite H; clear H
      | |- context [cleanupTemp ?f ?d ?z ?w] =>
          let H := fresh "Hrun" in
          destruct (cleanupTemp_run f d z w) as (?wc & ?evc & H & ?Hlog & ?Hclean & ?Hzip);
          rewrite H; clear H
      end; run_unfold
    | run_step ];
  cbn [log fs] in *;
  repeat match goal with
  | H : log ?w = _ |- context [log ?w] => rewrite H
  end.

(** Counts over such a log. *)
Ltac count_log :=
  repeat (rewrite ?fetched_app, ?skips_app, ?skips_cons; cbn [fetched is_skip]);
  repeat match goal with
  | H : Forall (cleanup_event _ _ _) ?evs |- _ =>
      rewrite ?(fetched_cleanup _ _ _ evs H), ?(skips_cleanup _ _ _ evs H);
      revert H
  end; intros;
  rewrite ?app_nil_r; cbn [app Nat.add].

(** Whatever happens, no video beyond the first [MAX_PLAYLIST_VIDEOS]
    entries is attempted; and once the loop is reached, each of these is,
    in order. *)
Lemma playlist_attempts E chatId info disk :
  let w := after_playlist E chatId info disk in
  (attempts w = [] \/
   attempts w = map videoUrl (firstn MAX_PLAYLIST_VIDEOS (entries info))) /\
  (announced chatId w ->
   attempts w = map videoUrl (firstn MAX_PLAYLIST_VIDEOS (entries info))).
Proof.
  split.
  - run_playlist; count_log; auto.
  - unfold announced. run_playlist; intros (t & n & Hin); in_log; count_log; auto.
Qed.

(** C7: for a playlist of more than [MAX_PLAYLIST_VIDEOS] entries,
    nothing but the first [MAX_PLAYLIST_VIDEOS] entries is ever
    attempted, and as soon as the run reaches the loop these are
    attempted, each once and in their order: ten attempts. *)
Theorem playlist_cap (E : Collaborators) (chatId : Z) (info : Info)
    (disk : gmap string Z)
    (Hlen : (length (entries info) > MAX_PLAYLIST_VIDEOS)%nat) :
  let w := after_playlist E chatId info disk in
  (attempts w = [] \/
   attempts w = map videoUrl (firstn MAX_PLAYLIST_VIDEOS (entries info))) /\
  (length (attempts w) <= MAX_PLAYLIST_VIDEOS)%nat /\
  (announced chatId w ->
   attempts w = map videoUrl (firstn MAX_PLAYLIST_VIDEOS (entries info)) /\
   length (attempts w) = MAX_PLAYLIST_VIDEOS).
Proof.
  destruct (playlist_attempts E chatId info disk) as [Hcap Hall].
  split; [exact Hcap|]. split.
  - destruct Hcap as [->| ->]; simpl; [lia|]. rewrite length_map, length_take. lia.
  - intros Hann. split; [exact (Hall Hann)|].
    rewrite (Hall Hann), length_map, length_take. lia.
Qed.

Lemma playlist_cap_witness :
  attempts (after_playlist
              (Scenario.env Scenario.online 1000 true Scenario.clip_split)
              1 fifteen ∅) =
    map videoUrl (firstn MAX_PLAYLIST_VIDEOS (entries fifteen)) /\
  length (attempts (after_playlist
                      (Scenario.env Scenario.online 1000 true Scenario.clip_split)
                      1 fifteen ∅)) = MAX_PLAYLIST_VIDEOS.
Proof.
  apply (playlist_cap
           (Scenario.env Scenario.online 1000 true Scenario.clip_split)
           1 fifteen ∅).
  - vm_compute. lia.
  - exists "mix", 15%nat. vm_compute. in_list.
Defined.

(** Fifteen entries, ten attempts. *)
Example fifteen_entries_ten_attempts :
  attempts (after_playlist
              (Scenario.env Scenario.online 1000 true Scenario.clip_split)
              1 fifteen ∅) =
  map (fun i => "https://www.youtube.com/watch?v=" +:+ i)
    ["a01"; "a02"; "a03"; "a04"; "a05"; "a06"; "a07"; "a08"; "a09"; "a10"].
Proof. vm_compute. reflexivity. Qed.



(** One video of the five is left, and it is archived and sent; when all
    four fail, the user is told so and nothing is archived. *)
Example one_of_five_survives :
  let w := after_playlist Flaky.env 7 Flaky.five ∅ in
  length (attempts w) = 5%nat /\ skips (log w) = 4%nat /\ survivors w = 1%nat /\
  In (Archiver [mkFile "/tmp/ytplaylist-Ab12Cd/song_22.mp4" "song_22.mp4"]
        "/app/mix.zip" true) (log w) /\
  In (SendDocument 7 "/app/mix.zip" true) (log w).
Proof.
  cbv zeta. split; [|split; [|split; [|split]]]; vm_compute; try reflexivity; in_list.
Qed.

Example none_of_four_survives :
  let w := after_playlist Flaky.env 7 Flaky.four ∅ in
  length (attempts w) = 4%nat /\ survivors w = 0%nat /\
  In (SendMessage 7 NNoVideosDownloaded true) (log w).
Proof.
  cbv zeta. split; [|split]; vm_compute; try reflexivity; in_list.
Qed.

(** ** The size gate at its boundary *)

(** A file of the single-video handler found no larger than [MAX_SIZE]
    is passed to [sendVideo], and no message says it is too large. *)
Lemma within_limit_single E chatId info u disk p size :
  let w := after_single E chatId info u disk in
  In (Stat p (Some size)) (log w) -> (size <= MAX_SIZE)%Z ->
  (exists ok, In (SendVideo chatId p ok) (log w)) /\
  (forall text ok, says_too_large text = true ->
                   ~ In (SendMessage chatId text ok) (log w)).
Proof.
  run_single; intros Hstat Hsize; in_log; gate_facts; try lia.
  all: split; [eexists; simpl; eauto 12|].
  all: intros text ok Htext Hin; in_log; discriminate.
Qed.

(** The same for the archive of a playlist and [sendDocument]. *)
Lemma within_limit_playlist E chatId info disk p size :
  let w := after_playlist E chatId info disk in
  In (Stat p (Some size)) (log w) -> (size <= MAX_SIZE)%Z ->
  (exists ok, In (SendDocument chatId p ok) (log w)) /\
  (forall text ok, says_too_large text = true ->
                   ~ In (SendMessage chatId text ok) (log w)).
Proof.
  run_playlist; intros Hstat Hsize; in_log; gate_facts; try lia.
  all: split;
    [eexists; repeat first [left; reflexivity | apply in_or_app; right | right]|].
  all: intros text ok Htext Hin; in_log; discriminate.
Qed.

(** A message that says a file is too large is only ever sent after a
    file was found strictly larger than [MAX_SIZE]. *)
Lemma too_large_only_beyond_single E chatId info u disk text ok :
  let w := after_single E chatId info u disk in
  says_too_large text = true -> In (SendMessage chatId text ok) (log w) ->
  exists p size, In (Stat p (Some size)) (log w) /\ (size > MAX_SIZE)%Z.
Proof.
  run_single; intros Htext Hin; in_log; try discriminate; gate_facts.
  all: eexists _, _; split; [simpl; eauto 12|lia].
Qed.

Lemma too_large_only_beyond_playlist E chatId info disk text ok :
  let w := after_playlist E chatId info disk in
  says_too_large text = true -> In (SendMessage chatId text ok) (log w) ->
  exists p size, In (Stat p (Some size)) (log w) /\ (size > MAX_SIZE)%Z.
Proof.
  run_playlist; intros Htext Hin; in_log; try discriminate; gate_facts.
  all: eexists _, _; split;
    [repeat first [left; reflexivity | apply in_or_app; right | right]|lia].
Qed.

(** C10: a downloaded or merged file, or an archive, found to be of
    exactly [MAX_SIZE] bytes is handed to [sendVideo], respectively
    [sendDocument], and nothing says it is too large; such a message is
    sent only for a size strictly above [MAX_SIZE]. *)
Theorem size_gate_boundary (E : Collaborators) (chatId : Z) (info : Info)
    (u : string) (disk : gmap string Z) :
  let ws := after_single E chatId info u disk in
  let wp := after_playlist E chatId info disk in
  (forall p, In (Stat p (Some MAX_SIZE)) (log ws) ->
     (exists ok, In (SendVideo chatId p ok) (log ws)) /\
     (forall text ok, says_too_large text = true ->
                      ~ In (SendMessage chatId text ok) (log ws))) /\
  (forall p, In (Stat p (Some MAX_SIZE)) (log wp) ->
     (exists ok, In (SendDocument chatId p ok) (log wp)) /\
     (forall text ok, says_too_large text = true ->
                      ~ In (SendMessage chatId text ok) (log wp))) /\
  (forall text ok, says_too_large text = true ->
     (In (SendMessage chatId text ok) (log ws) ->
      exists p size, In (Stat p (Some size)) (log ws) /\ (size > MAX_SIZE)%Z) /\
     (In (SendMessage chatId text ok) (log wp) ->
      exists p size, In (Stat p (Some size)) (log wp) /\ (size > MAX_SIZE)%Z)).
Proof.
  intros ws wp. split; [|split].
  - intros p Hstat. apply (within_limit_single E chatId info u disk p MAX_SIZE Hstat).
    lia.
  - intros p Hstat. apply (within_limit_playlist E chatId info disk p MAX_SIZE Hstat).
    lia.
  - intros text ok Htext. split.
    + apply too_large_only_beyond_single, Htext.
    + apply too_large_only_beyond_playlist, Htext.
Qed.

Lemma size_gate_boundary_witness :
  (exists ok,
     In (SendVideo 1 "/app/clip_22.mp4" ok)
        (log (after_single
                (Scenario.env Scenario.online MAX_SIZE true Scenario.clip_combined)
                1 clip_and_entries "https://youtu.be/ER9SspLe4Hg" ∅))) /\
  (exists ok,
     In (SendDocument 1 "/app/clip.zip" ok)
        (log (after_playlist
                (Scenario.env Scenario.online MAX_SIZE true Scenario.clip_combined)
                1 clip_and_entries ∅))).
Proof.
  pose proof (size_gate_boundary
                (Scenario.env Scenario.online MAX_SIZE true Scenario.clip_combined)
                1 clip_and_entries "https://youtu.be/ER9SspLe4Hg" ∅)
    as (Hsingle & Hplaylist & _).
  split.
  - apply (Hsingle "/app/clip_22.mp4"). vm_compute. in_list.
  - apply (Hplaylist "/app/clip.zip"). vm_compute. in_list.
Defined.

(** One byte more, and the message goes out instead of the video. *)
Example one_byte_over :
  let w := after_single
             (Scenario.env Scenario.online (MAX_SIZE + 1) true Scenario.clip_combined)
             1 clip_and_entries "https://youtu.be/ER9SspLe4Hg" ∅ in
  In (SendMessage 1 NDownloadedTooLarge true) (log w) /\
  forall ok, ~ In (SendVideo 1 "/app/clip_22.mp4" ok) (log w).
Proof.
  cbv zeta. split.
  - vm_compute. in_list.
  - intros ok Hin. vm_compute in Hin. intuition discriminate.
Qed.

(** ** Where the files go *)

Lemma append_same_length (d1 d2 x y : string) :
  String.length d1 = String.length d2 -> d1 +:+ x = d2 +:+ y -> d1 = d2.
Proof.
  revert d2. induction d1 as [|c d1 IH]; intros [|c' d2]; simpl; try discriminate.
  - trivial.
  - intros [= Hlen] [= -> Happ]. f_equal. now apply IH.
Qed.

Lemma inside_files tempDir files p :
  Forall (fun f => inside tempDir (path f)) files ->
  In p (map path files) -> inside tempDir p.
Proof.
  intros Hfiles Hp. apply in_map_iff in Hp as (f & <- & Hf).
  exact (proj1 (List.Forall_forall _ _) Hfiles f Hf).
Qed.

Ltac in_goal :=
  repeat first [left; reflexivity | apply in_or_app; right | right].

(** C8 fails: two requests, from different chats and with different
    URLs, for a video of the same title download to the same path, and
    two playlists of the same title are archived at the same path. *)
Lemma two_requests_one_path :
  let E := Scenario.env Scenario.online 1000 true Scenario.clip_combined in
  (In (Download "https://youtu.be/ER9SspLe4Hg" "22" "/app/clip_22.mp4" true)
      (log (after_single E 1 Scenario.clip_combined
              "https://youtu.be/ER9SspLe4Hg" ∅)) /\
   In (Download "https://www.youtube.com/watch?v=ER9SspLe4Hg" "22"
         "/app/clip_22.mp4" true)
      (log (after_single E 2 Scenario.clip_combined
              "https://www.youtube.com/watch?v=ER9SspLe4Hg" ∅))) /\
  (exists files1 files2,
     In (Archiver files1 "/app/clip.zip" true)
        (log (after_playlist E 1 clip_and_entries ∅)) /\
     In (Archiver files2 "/app/clip.zip" true)
        (log (after_playlist E 2 clip_and_entries ∅))).
Proof.
  cbv zeta. split; [split|]; [vm_compute; in_list ..|].
  eexists _, _. split; vm_compute; in_list.
Qed.

(** C8, amended: every file the single-video handler touches is at one
    of the paths built from the script directory, the sanitized title
    and the chosen formats, whoever asks and for whatever URL; the
    playlist handler touches its archive, likewise named after the
    title, and otherwise only files inside the directory that mkdtemp
    made for this run; and files inside two different temporary
    directories (of names of equal length) are different. *)
Theorem paths_come_from_titles (E : Collaborators) (info : Info) :
  (forall chatId u disk e p,
     In e (log (after_single E chatId info u disk)) -> In p (touches e) ->
     In p (single_paths E info)) /\
  (forall chatId disk e p,
     In e (log (after_playlist E chatId info disk)) -> In p (touches e) ->
     p = zip_path E info \/
     exists tempDir,
       In (Mkdtemp (path_join (tmpdir E) "ytplaylist-") (Some tempDir))
          (log (after_playlist E chatId info disk)) /\
       inside tempDir p) /\
  (forall tempDir1 tempDir2 p,
     String.length tempDir1 = String.length tempDir2 ->
     inside tempDir1 p -> inside tempDir2 p -> tempDir1 = tempDir2).
Proof.
  split; [|split].
  - intros chatId u disk e p. unfold single_paths, select.
    run_single; intros He Hp; in_log; simpl in Hp; simpl; tauto.
  - intros chatId disk e p. unfold zip_path.
    run_playlist; intros He Hp; in_log.
    all: try match goal with
         | H : video_event _ ?e |- _ =>
             destruct e; simpl in H, Hp; try contradiction
         | H : cleanup_event _ _ _ ?e |- _ =>
             destruct e; simpl in H, Hp; try contradiction
         end.
    all: simpl in Hp;
      repeat match goal with
      | H : _ \/ _ |- _ => destruct H
      | H : _ /\ _ |- _ => destruct H
      | H : False |- _ => destruct H
      end; subst.
    all: first
      [ left; reflexivity
      | right; eexists; split; [in_goal | eauto using inside_files] ].
  - intros d1 d2 p Hlen (n1 & ->) (n2 & Heq). unfold path_join in Heq.
    exact (append_same_length _ _ _ _ Hlen Heq).
Qed.

Lemma paths_come_from_titles_witness :
  In "/app/clip_22.mp4"
     (single_paths
        (Scenario.env Scenario.online 1000 true Scenario.clip_combined)
        Scenario.clip_combined) /\
  ("/tmp/ytplaylist-Ab12Cd/song_22.mp4" = zip_path Flaky.env Flaky.five \/
   exists tempDir,
     In (Mkdtemp (path_join (tmpdir Flaky.env) "ytplaylist-") (Some tempDir))
        (log (after_playlist Flaky.env 7 Flaky.five ∅)) /\
     inside tempDir "/tmp/ytplaylist-Ab12Cd/song_22.mp4").
Proof.
  split.
  - apply (proj1 (paths_come_from_titles
                    (Scenario.env Scenario.online 1000 true Scenario.clip_combined)
                    Scenario.clip_combined)
             2%Z "https://www.youtube.com/watch?v=ER9SspLe4Hg" ∅
             (Download "https://www.youtube.com/watch?v=ER9SspLe4Hg" "22"
                "/app/clip_22.mp4" true)).
    + vm_compute. in_list.
    + left. reflexivity.
  - apply (proj1 (proj2 (paths_come_from_titles Flaky.env Flaky.five))
             7%Z ∅
             (Download (Flaky.watch "b01") "22"
                "/tmp/ytplaylist-Ab12Cd/song_22.mp4" true)).
    + vm_compute. in_list.
    + left. reflexivity.
Defined.

(** ** Clean-up on the split path *)

(** X2: without a combined format, whatever the handler downloaded, merged,
    measured or sent is unlinked before it returns, on every way out:
    success, a failed download or merge, a file too large, a message
    that Telegram rejects. *)
Lemma split_path_always_cleans E chatId info u disk e p :
  let w := after_single E chatId info u disk in
  combined (formats info) = None ->
  In e (log w) -> In p (touches e) -> fs w !! p = None.
Proof.
  cbv zeta. intros Hnone. unfold after_single, handleSingleVideo, start.
  rewrite Hnone. destruct (videoOnly (formats info)) as [v|];
    [destruct (bestAudio (formats info)) as [a|]|]; run.
  all: intros He Hp; in_log; simpl in Hp;
    repeat match goal with
    | H : _ \/ _ |- _ => destruct H
    | H : False |- _ => destruct H
    end; subst.
  all: rewrite !lookup_delete; repeat case_decide; congruence.
Qed.

Lemma split_path_always_cleans_witness :
  fs (after_single
        (Scenario.env Scenario.online (MAX_SIZE + 1) true Scenario.clip_split)
        1 Scenario.clip_split "https://youtu.be/ER9SspLe4Hg" ∅)
  !! "/app/clip_720p_merged.mp4" = None.
Proof.
  apply (split_path_always_cleans
           (Scenario.env Scenario.online (MAX_SIZE + 1) true Scenario.clip_split)
           1 Scenario.clip_split "https://youtu.be/ER9SspLe4Hg" ∅
           (Stat "/app/clip_720p_merged.mp4" (Some (MAX_SIZE + 1)%Z))).
  - reflexivity.
  - vm_compute. in_list.
  - left. reflexivity.
Defined.

Lemma oversize_gate_single_witness :
  let w := after_single
             (Scenario.env Scenario.online (MAX_SIZE + 1) true Scenario.clip_split)
             1 Scenario.clip_split "https://youtu.be/ER9SspLe4Hg" ∅ in
  (forall ok, ~ In (SendVideo 1 "/app/clip_720p_merged.mp4" ok) (log w)) /\
  (exists ok, In (SendMessage 1 NDownloadedTooLarge ok) (log w) \/
              In (SendMessage 1 NMergedTooLarge ok) (log w)) /\
  ((exists v a ok, In (Ffmpeg v a "/app/clip_720p_merged.mp4" ok) (log w)) ->
   fs w !! "/app/clip_720p_merged.mp4" = None) /\
  (fs w !! "/app/clip_720p_merged.mp4" = None \/
   In (SendMessage 1 NStatError false) (log w)).
Proof.
  apply (oversize_gate_single
           (Scenario.env Scenario.online (MAX_SIZE + 1) true Scenario.clip_split)
           1 Scenario.clip_split "https://youtu.be/ER9SspLe4Hg" ∅
           "/app/clip_720p_merged.mp4" (MAX_SIZE + 1)).
  - vm_compute. in_list.
  - unfold MAX_SIZE. lia.
Defined.

Lemma bestAudio_earliest_witness :
  exists l1 l2,
    [Demo.f139; Demo.f136; Demo.f141; Demo.f140] = l1 ++ Demo.f141 :: l2 /\
    qualifies_audioOnly Demo.f141 /\
    (forall y, In y l1 -> qualifies_audioOnly y ->
               (stated_rate y < stated_rate Demo.f141)%Z) /\
    (forall y, In y l2 -> qualifies_audioOnly y ->
               (stated_rate y <= stated_rate Demo.f141)%Z).
Proof.
  apply (bestAudio_earliest [Demo.f139; Demo.f136; Demo.f141; Demo.f140]).
  reflexivity.
Defined.

(** ** The handler downloads what [select] chose *)

(** X4: every download of the single-video handler is for the URL of the
    request and for a format that [select] returns for the catalog. *)
Lemma single_downloads_the_selection E chatId info u disk u' fmt output ok :
  In (Download u' fmt output ok) (log (after_single E chatId info u disk)) ->
  u' = u /\
  exists f, In f (chosen (select (formats info))) /\ fmt = format_id f.
Proof.
  unfold select. run_single; intros Hin; in_log.
  all: split; [reflexivity|]; eexists; split; [|reflexivity]; simpl; tauto.
Qed.

Lemma single_downloads_the_selection_witness :
  "https://youtu.be/ER9SspLe4Hg" = "https://youtu.be/ER9SspLe4Hg" /\
  exists f, In f (chosen (select (formats Scenario.clip_split))) /\
            "141" = format_id f.
Proof.
  apply (single_downloads_the_selection
           (Scenario.env Scenario.online 1000 true Scenario.clip_split)
           1 Scenario.clip_split "https://youtu.be/ER9SspLe4Hg" ∅
           "https://youtu.be/ER9SspLe4Hg" "141" "/app/clip_audio.m4a" true).
  vm_compute. in_list.
Defined.

(** * More of the code *)

(** ** The link test and the URLs of playlist entries *)

Lemma prefix_app (p s t : string) :
  String.prefix p s = true -> String.prefix p (s +:+ t) = true.
Proof.
  revert s. induction p as [|a p IH]; intros [|b s]; simpl; intros H;
    try discriminate; try (destruct t; reflexivity).
  destruct (ascii_dec a b); [now apply IH|discriminate].
Qed.

Lemma prefix_trans (p q s : string) :
  String.prefix p q = true -> String.prefix q s = true ->
  String.prefix p s = true.
Proof.
  revert q s. induction p as [|a p IH]; intros [|b q] [|c s]; simpl;
    intros H1 H2; try discriminate; try reflexivity.
  destruct (ascii_dec a b) as [->|]; [|discriminate].
  destruct (ascii_dec b c) as [->|]; [|discriminate].
  destruct (ascii_dec c c); [now apply (IH q)|congruence].
Qed.

(** X5: the link test looks at the beginning of the text only.  A text
    that passes starts with [http://] or [https://], and it still passes
    with anything appended, also when that changes the host. *)
Theorem youtube_url_is_a_prefix_test (s t : string)
    (H : youtube_url s = true) :
  youtube_url (s +:+ t) = true /\
  (String.prefix "http://" s = true \/ String.prefix "https://" s = true).
Proof.
  unfold youtube_url in *. apply existsb_exists in H as (p & Hp & Hs). split.
  - apply existsb_exists. exists p. split; trivial. now apply prefix_app.
  - assert (forallb (fun q => String.prefix "http://" q || String.prefix "https://" q)
              youtube_patterns = true) as Hall by reflexivity.
    pose proof (proj1 (forallb_forall _ _) Hall p Hp) as Hq.
    apply orb_true_iff in Hq as [Hq|Hq]; [left|right];
      exact (prefix_trans _ _ _ Hq Hs).
Qed.

Lemma youtube_url_is_a_prefix_test_witness :
  youtube_url ("https://youtube.com" +:+ ".example.org/watch") = true /\
  (String.prefix "http://" "https://youtube.com" = true \/
   String.prefix "https://" "https://youtube.com" = true).
Proof.
  apply (youtube_url_is_a_prefix_test "https://youtube.com" ".example.org/watch").
  reflexivity.
Defined.

(** X6: the URL the playlist loop asks yt-dlp for.  An entry's [url]
    that starts with [http] is used as it is, whatever its host.  In
    every other case the URL is the YouTube watch link of a key, which
    passes the link test: the key is the entry's [id] when that is a
    non-empty string, and else its [url] when that is one.  So the URL
    starts with [http] in every case. *)
Theorem videoUrl_is_http (video : Entry) :
  let watch := "https://www.youtube.com/watch?v=" in
  String.prefix "http" (videoUrl video) = true /\
  (forall u, url video = Some u -> String.prefix "http" u = true ->
     videoUrl video = u) /\
  ((forall u, url video = Some u -> String.prefix "http" u = false) ->
   (exists key, videoUrl video = watch +:+ key) /\
   youtube_url (videoUrl video) = true /\
   (forall i, id video = Some i -> i <> "" -> videoUrl video = watch +:+ i) /\
   (forall u, url video = Some u -> u <> "" ->
      id video = None \/ id video = Some "" ->
      videoUrl video = watch +:+ u)).
Proof.
  cbv zeta. unfold videoUrl.
  destruct (url video) as [u|] eqn:Hu.
  - destruct (String.eqb_spec u "") as [->|Hne]; simpl.
    + split; [reflexivity|]. split; [intros u [= <-]; discriminate|].
      intros _. split; [eexists; reflexivity|]. split; [reflexivity|].
      split.
      * intros i ->. intros Hi. apply String.eqb_neq in Hi. now rewrite Hi.
      * intros u [= <-] Hne. now destruct Hne.
    + destruct (String.prefix "http" u) eqn:Hp.
      * split; [exact Hp|]. split; [now intros u' [= <-]|].
        intros Hno. specialize (Hno u eq_refl). congruence.
      * split; [reflexivity|]. split; [intros u' [= <-]; congruence|].
        intros _. split; [eexists; reflexivity|]. split; [reflexivity|].
        split.
        -- intros i ->. intros Hi. apply String.eqb_neq in Hi. now rewrite Hi.
        -- intros u' [= <-] _ [->| ->]; reflexivity.
  - simpl. split; [reflexivity|]. split; [discriminate|].
    intros _. split; [eexists; reflexivity|]. split; [reflexivity|].
    split; [|discriminate].
    intros i ->. intros Hi. apply String.eqb_neq in Hi. now rewrite Hi.
Qed.

(** ** The file names of the stand-alone script *)

Lemma length_replace_unsafe s :
  String.length (Script.replace_unsafe s) = String.length s.
Proof. induction s as [|c s IH]; simpl; congruence. Qed.

Lemma replace_unsafe_safe s c :
  In c (list_ascii_of_string (Script.replace_unsafe s)) -> Script.unsafe c = false.
Proof.
  induction s as [|a s IH]; simpl; [tauto|]. intros [<-|Hc]; auto.
  destruct (Script.unsafe a) eqn:Ha; [reflexivity|exact Ha].
Qed.

Lemma replace_unsafe_id s :
  (forall c, In c (list_ascii_of_string s) -> Script.unsafe c = false) ->
  Script.replace_unsafe s = s.
Proof.
  induction s as [|a s IH]; simpl; trivial. intros H.
  rewrite (H a) by (now left). f_equal. apply IH. intros c Hc. apply H. now right.
Qed.

Lemma length_slice (n : nat) (s : string) :
  String.length (String.substring 0 n s) = Nat.min n (String.length s).
Proof.
  revert s. induction n as [|n IH]; intros [|c s]; simpl; trivial.
  now rewrite IH.
Qed.

Lemma slice_chars (n : nat) (s : string) c :
  In c (list_ascii_of_string (String.substring 0 n s)) ->
  In c (list_ascii_of_string s).
Proof.
  revert s. induction n as [|n IH]; intros [|a s]; simpl; try tauto.
  intros [<-|Hc]; auto.
Qed.

Lemma slice_short (n : nat) (s : string) :
  (String.length s <= n)%nat -> String.substring 0 n s = s.
Proof.
  revert s. induction n as [|n IH]; intros [|a s]; simpl; trivial; try lia.
  intros H. f_equal. apply IH. lia.
Qed.

(** X7: the title the script names its files after is the title cut to
    100 characters, holds none of the characters [< > : / \ | ? *], no
    double quote and no control character, and is left as it is when
    the same cleaning is applied again. *)
Theorem script_safeTitle_is_safe (title : string) :
  String.length (Script.safeTitle title) = Nat.min 100 (String.length title) /\
  (forall c, In c (list_ascii_of_string (Script.safeTitle title)) ->
             Script.unsafe c = false) /\
  Script.safeTitle (Script.safeTitle title) = Script.safeTitle title.
Proof.
  unfold Script.safeTitle, slice100.
  assert (forall c,
            In c (list_ascii_of_string
                    (String.substring 0 100 (Script.replace_unsafe title))) ->
            Script.unsafe c = false) as Hsafe.
  { intros c Hc. apply slice_chars in Hc. exact (replace_unsafe_safe _ _ Hc). }
  split; [|split; [exact Hsafe|]].
  - now rewrite length_slice, length_replace_unsafe.
  - rewrite (replace_unsafe_id _ Hsafe). apply slice_short.
    rewrite length_slice. lia.
Qed.

(** ** The script and bot.js select alike *)

Lemma find_ext_in {A} (p q : A -> bool) (l : list A) :
  (forall x, In x l -> p x = q x) -> List.find p l = List.find q l.
Proof.
  induction l as [|a l IH]; simpl; trivial. intros H.
  rewrite <- (H a) by (now left). destruct (p a); trivial.
  apply IH. intros x Hx. apply H. now right.
Qed.

Lemma first_max_ext_in {A} (r1 r2 : A -> Z) (l : list A) :
  (forall x, In x l -> r1 x = r2 x) -> first_max r1 l = first_max r2 l.
Proof.
  induction l as [|a l IH]; simpl; trivial. intros H.
  rewrite IH by (intros x Hx; apply H; now right).
  destruct (first_max r2 l) as [b|] eqn:Hb; trivial.
  rewrite (H a) by (now left).
  rewrite (H b) by (right; exact (first_max_In _ _ _ Hb)). reflexivity.
Qed.

Lemma script_head_first_max formats :
  List.head (Script.audioFormats formats) =
  first_max (fun f => Js.or0 (bitrate f))
    (List.filter Script.is_audioFormat formats).
Proof.
  unfold Script.audioFormats.
  apply (head_sort (fun f => Js.or0 (bitrate f))).
Qed.

(** X8: on a catalog whose formats all pass the size test of bot.js and
    carry no [abr], bot.js selects exactly what the stand-alone script
    selects: the cap and the [abr] are all that tells the two apart. *)
Theorem select_agrees_with_script (formats : list Format)
    (Hcap : forall f, In f formats -> under_size_limit f = true)
    (Habr : forall f, In f formats -> Js.truthy (abr f) = false) :
  select formats = Script.selection formats.
Proof.
  assert (forall f, In f formats -> is_combined f = Script.is_combined720p f) as Hc.
  { intros f Hf. unfold is_combined, Script.is_combined720p.
    rewrite (Hcap f Hf). apply andb_true_r. }
  assert (forall f, In f formats -> is_videoOnly f = Script.is_videoOnly720p f) as Hv.
  { intros f Hf. unfold is_videoOnly, Script.is_videoOnly720p.
    rewrite (Hcap f Hf). apply andb_true_r. }
  assert (forall f, In f formats -> is_audioOnly f = Script.is_audioFormat f) as Ha.
  { intros f Hf. unfold is_audioOnly, Script.is_audioFormat.
    rewrite (Hcap f Hf). apply andb_true_r. }
  unfold select, Script.selection, combined, videoOnly,
    Script.combined720p, Script.videoOnly720p.
  rewrite (find_ext_in _ _ _ Hc), (find_ext_in _ _ _ Hv).
  rewrite bestAudio_first_max, script_head_first_max.
  rewrite (List.filter_ext_in _ _ _ Ha).
  rewrite (first_max_ext_in audio_rate (fun f => Js.or0 (bitrate f))); trivial.
  intros f Hf. apply filter_In in Hf as [Hf _].
  unfold audio_rate, Js.or. now rewrite (Habr f Hf).
Qed.

Lemma select_agrees_with_script_witness :
  select [Script_demo.a64; Demo.f136; Script_demo.a256; Script_demo.a128] =
  Script.selection [Script_demo.a64; Demo.f136; Script_demo.a256; Script_demo.a128].
Proof.
  apply select_agrees_with_script.
  - intros f [<-|[<-|[<-|[<-|[]]]]]; reflexivity.
  - intros f [<-|[<-|[<-|[<-|[]]]]]; reflexivity.
Defined.

(** With an [abr], the two part ways: the script ranks by [bitrate]
    alone and takes the first track, bot.js the one of highest [abr]. *)
Example script_ignores_abr :
  Script.selection [Demo.f139; Demo.f136; Demo.f141; Demo.f140] =
    SplitPair Demo.f136 Demo.f139 /\
  select [Demo.f139; Demo.f136; Demo.f141; Demo.f140] =
    SplitPair Demo.f136 Demo.f141.
Proof. split; reflexivity. Qed.

(** ** The other ways out of [handleSingleVideo] *)

(** X9: when the catalog has no combined format and lacks the video-only
    format or any audio candidate, the handler only sends messages:
    nothing is downloaded, the disk stays as it was, and the user is
    told which of the two is missing as soon as the two messages before
    it went through. *)
Theorem no_format_no_download (E : Collaborators) (chatId : Z) (info : Info)
    (u : string) (disk : gmap string Z) (r : Reason)
    (Hnone : select (formats info) = NoneFound r) :
  let w := after_single E chatId info u disk in
  fs w = disk /\
  (forall e, In e (log w) -> exists text ok, e = SendMessage chatId text ok) /\
  (In (SendMessage chatId NNoCombined true) (log w) ->
   exists ok, In (SendMessage chatId (notice_of r) ok) (log w)).
Proof.
  revert Hnone. unfold select. run_single; intros Hnone; try discriminate.
  all: injection Hnone as <-.
  all: split; [reflexivity|split].
  all: try (intros e He; in_log; eauto).
  all: intros Hin; in_log; eexists; simpl; eauto.
Qed.

(** X10: a download that fails ends the acquisition.  After it nothing
    is merged, measured or sent.  On the split path the user gets the
    "error during download or merge" message and the path of the failed
    download is unlinked; on the combined path the handler throws to its
    caller without unlinking anything. *)
Theorem failed_download_stops_the_run (E : Collaborators) (chatId : Z)
    (info : Info) (u : string) (disk : gmap string Z) (u' fmt p : string)
    (Hfail : In (Download u' fmt p false)
                (log (after_single E chatId info u disk))) :
  let w := after_single E chatId info u disk in
  (forall v a o ok, ~ In (Ffmpeg v a o ok) (log w)) /\
  (forall q size, ~ In (Stat q size) (log w)) /\
  (forall q ok, ~ In (SendVideo chatId q ok) (log w)) /\
  (combined (formats info) = None ->
   (exists ok, In (SendMessage chatId NDownloadOrMergeError ok) (log w)) /\
   fs w !! p = None) /\
  (combined (formats info) <> None ->
   fst (handleSingleVideo E chatId info u (start disk)) = Throw YtdlError /\
   forall q ok, ~ In (Unlink q ok) (log w)).
Proof.
  revert Hfail. unfold after_single, handleSingleVideo, start.
  destruct (combined (formats info)) as [c|];
    [|destruct (videoOnly (formats info)) as [v|];
      [destruct (bestAudio (formats info)) as [a|]|]]; run.
  all: intros Hfail; in_log.
  all: repeat split; try congruence;
    try (intros; intros Hin; in_log; fail);
    try (intros; eexists; simpl; eauto 12; fail);
    try (intros; rewrite !lookup_delete; repeat case_decide; congruence).
Qed.

Lemma failed_download_stops_the_run_witness :
  let w := after_single Flaky.env 7 Scenario.clip_combined (Flaky.watch "b04") ∅ in
  (forall v a o ok, ~ In (Ffmpeg v a o ok) (log w)) /\
  (forall q size, ~ In (Stat q size) (log w)) /\
  (forall q ok, ~ In (SendVideo 7 q ok) (log w)) /\
  (combined (formats Scenario.clip_combined) = None ->
   (exists ok, In (SendMessage 7 NDownloadOrMergeError ok) (log w)) /\
   fs w !! "/app/clip_22.mp4" = None) /\
  (combined (formats Scenario.clip_combined) <> None ->
   fst (handleSingleVideo Flaky.env 7 Scenario.clip_combined (Flaky.watch "b04")
          (start ∅)) = Throw YtdlError /\
   forall q ok, ~ In (Unlink q ok) (log w)).
Proof.
  apply (failed_download_stops_the_run Flaky.env 7 Scenario.clip_combined
           (Flaky.watch "b04") ∅ (Flaky.watch "b04") "22" "/app/clip_22.mp4").
  vm_compute. in_list.
Defined.

(** The file that the broken download left behind is still there. *)
Example failed_combined_download_stays :
  fs (after_single Flaky.env 7 Scenario.clip_combined (Flaky.watch "b04") ∅)
  !! "/app/clip_22.mp4" = Some 1000%Z.
Proof. vm_compute. reflexivity. Qed.

Lemma no_format_no_download_witness :
  let w := after_single Flaky.env 7 (mkInfo (Some "talk") [Demo.f140] [])
             (Flaky.watch "b03") ∅ in
  fs w = ∅ /\
  (forall e, In e (log w) -> exists text ok, e = SendMessage 7 text ok) /\
  (In (SendMessage 7 NNoCombined true) (log w) ->
   exists ok, In (SendMessage 7 (notice_of NoVideoOnly) ok) (log w)).
Proof.
  apply (no_format_no_download Flaky.env 7 (mkInfo (Some "talk") [Demo.f140] [])
           (Flaky.watch "b03") ∅ NoVideoOnly).
  reflexivity.
Defined.

(** ** Only files measured within the limit are sent *)

(** ** The order of the calls in a log *)

Lemma split_cons {A} (e x : A) (l later earlier : list A) :
  e :: l = later ++ x :: earlier ->
  (later = [] /\ e = x /\ l = earlier) \/
  exists later', later = e :: later' /\ l = later' ++ x :: earlier.
Proof.
  destruct later as [|y later]; simpl; intros [= -> ->]; eauto.
Qed.

Lemma split_app {A} (seg l later : list A) (x : A) (earlier : list A) :
  seg ++ l = later ++ x :: earlier ->
  In x seg \/ exists later', later = seg ++ later' /\ l = later' ++ x :: earlier.
Proof.
  revert later. induction seg as [|y seg IH]; intros later; simpl.
  - intros ->. right. exists later. auto.
  - intros H. apply split_cons in H as [(-> & -> & _)|(later' & -> & H)].
    + left; now left.
    + destruct (IH _ H) as [Hin|(l' & -> & ->)]; [left; now right|].
      right. exists l'. auto.
Qed.

(** Where in a log, made of written-out calls and of segments known by
    a [Forall], a call can stand. *)
Ltac in_trace H :=
  repeat match type of H with
  | [] = _ ++ _ :: _ => now destruct (app_cons_not_nil _ _ _ H)
  | _ :: _ = _ ++ _ :: _ =>
      let later := fresh "later" in
      apply split_cons in H as [(-> & H & <-)|(later & -> & H)];
      [first [discriminate H | injection H as ?; subst | subst]|]
  | _ ++ _ = _ ++ _ :: _ =>
      let later := fresh "later" in
      let Hin := fresh "Hin" in
      apply split_app in H as [Hin|(later & -> & H)];
      [in_log|]
  end.

Lemma measured_nil chatId : measured_before_sent chatId [].
Proof. intros later e earlier c p H. now destruct (app_cons_not_nil _ _ _ H). Qed.

Lemma measured_cons chatId e evs :
  match sent_file e with
  | Some (c, p) =>
      c = chatId /\
      exists size rest, evs = Stat p (Some size) :: rest /\ (size <= MAX_SIZE)%Z
  | None => True
  end ->
  measured_before_sent chatId evs -> measured_before_sent chatId (e :: evs).
Proof.
  intros He Hevs later e' earlier c p H Hs.
  apply split_cons in H as [(-> & -> & ->)|(later' & -> & H)].
  - now rewrite Hs in He.
  - exact (Hevs _ _ _ _ _ H Hs).
Qed.

Lemma measured_app chatId seg evs :
  Forall (fun e => sent_file e = None) seg ->
  measured_before_sent chatId evs -> measured_before_sent chatId (seg ++ evs).
Proof.
  induction 1 as [|e seg He _ IH]; intros Hevs; simpl; trivial.
  apply measured_cons; [now rewrite He|auto].
Qed.

Lemma measured_after chatId evs e :
  sent_file e = None ->
  measured_before_sent chatId evs -> measured_before_sent chatId (evs ++ [e]).
Proof.
  intros He H later e' earlier c p Heq Hs.
  destruct earlier as [|y earlier _] using rev_ind.
  - apply app_inj_tail in Heq as [_ ->]. congruence.
  - change (evs ++ [e] = later ++ (e' :: earlier) ++ [y]) in Heq.
    rewrite app_assoc in Heq. apply app_inj_tail in Heq as [-> _].
    destruct (H _ _ _ _ _ eq_refl Hs) as (-> & size & rest & -> & Hle).
    split; [reflexivity|]. exists size, (rest ++ [y]). auto.
Qed.

Lemma video_sends_nothing tempDir evs :
  Forall (video_event tempDir) evs -> Forall (fun e => sent_file e = None) evs.
Proof.
  apply List.Forall_impl. intros e He. destruct e; simpl in *; trivial;
    contradiction.
Qed.

Lemma cleanup_sends_nothing files tempDir zipPath evs :
  Forall (cleanup_event files tempDir zipPath) evs ->
  Forall (fun e => sent_file e = None) evs.
Proof.
  apply List.Forall_impl. intros e He. destruct e; simpl in *; trivial;
    contradiction.
Qed.

(** A log of written-out calls and quiet segments in which each send
    follows the measurement of its file. *)
Ltac measured :=
  repeat first
    [ apply measured_nil
    | apply measured_app;
      [first [eapply video_sends_nothing; eassumption
             |eapply cleanup_sends_nothing; eassumption]|]
    | apply measured_cons;
      [cbn [sent_file]; first
         [ exact I
         | split; [reflexivity|]; do 2 eexists; split; [reflexivity|];
           gate_facts; lia ]|] ].

(** X11: the single-video handler hands at most one file to Telegram in
    a run, with [sendVideo] and to the chat of the request, and the
    call it made just before was the [fs.stat] of that file, which
    found it no larger than [MAX_SIZE]. *)
Theorem single_sends_only_measured (E : Collaborators) (chatId : Z)
    (info : Info) (u : string) (disk : gmap string Z) :
  let w := after_single E chatId info u disk in
  (deliveries (log w) <= 1)%nat /\
  (forall c p ok, ~ In (SendDocument c p ok) (log w)) /\
  (forall later earlier c p ok,
     log w = later ++ SendVideo c p ok :: earlier ->
     c = chatId /\
     exists size rest,
       earlier = Stat p (Some size) :: rest /\ (size <= MAX_SIZE)%Z).
Proof.
  run_single.
  all: split; [unfold deliveries; simpl; lia|split].
  all: try (intros ? ? ? Hin; in_log; fail).
  all: intros later earlier c' p ok Heq;
    match type of Heq with
    | ?l = _ => assert (measured_before_sent chatId l) as Hm by measured
    end;
    exact (Hm _ _ _ _ _ Heq eq_refl).
Qed.

(** ** What [cleanupTemp] does to the disk *)

Lemma lookup_without_files files disk q :
  (In q (map path files) -> without_files files disk !! q = None) /\
  (~ In q (map path files) -> without_files files disk !! q = disk !! q).
Proof.
  unfold without_files. revert disk.
  induction files as [|f files IH]; intros disk; simpl.
  - tauto.
  - destruct (IH (delete (path f) disk)) as [IH1 IH2]. split.
    + intros [Heq|Hin].
      * destruct (in_dec string_dec q (map path files)) as [Hin|Hnin]; auto.
        rewrite IH2 by trivial. subst q. apply lookup_delete_eq.
      * auto.
    + intros Hnin. rewrite IH2 by tauto. apply lookup_delete_ne. tauto.
Qed.

Lemma cleanupTemp_world files tempDir zipPath w :
  exists w' evs,
    cleanupTemp files tempDir zipPath w = (Ret tt, w') /\
    log w' = evs ++ log w /\
    Forall (cleanup_event files tempDir zipPath) evs /\
    fs w' = cleaned files tempDir zipPath (fs w).
Proof.
  assert (forall l w0, (forall p, In p (map path l) -> In p (map path files)) ->
            exists w1 evs,
              for_of l (fun _ f => cleanupFile (path f)) tt w0 = (Ret tt, w1) /\
              log w1 = evs ++ log w0 /\
              Forall (cleanup_event files tempDir zipPath) evs /\
              fs w1 = without_files l (fs w0)) as Hloop.
  { induction l as [|f l IH]; intros w0 Hl.
    - exists w0, []. repeat split; trivial.
    - simpl. unfold bind. rewrite cleanupFile_run.
      destruct (IH {| fs := delete (path f) (fs w0);
                      log := Unlink (path f) (present (fs w0) (path f)) :: log w0 |})
        as (w1 & evs & Hrun & Hlog & Hev & Hfs).
      { intros p Hp. apply Hl. now right. }
      exists w1, (evs ++ [Unlink (path f) (present (fs w0) (path f))]).
      rewrite Hrun, Hlog, <- app_assoc. repeat split; trivial.
      apply Forall_app. split; trivial. constructor; [|constructor].
      right. apply Hl. now left. }
  destruct (Hloop files w (fun p Hp => Hp)) as (w1 & evs & Hrun & Hlog & Hev & Hfs).
  unfold cleanupTemp, bind. rewrite Hrun. run_unfold. rewrite cleanupFile_run.
  eexists _, (Unlink zipPath _ :: Rmdir tempDir :: evs). split; [reflexivity|].
  cbn [log fs]. rewrite Hlog, Hfs. repeat split; trivial.
  repeat (apply List.Forall_cons; [simpl; auto|]). trivial.
Qed.

Lemma prefix_join (dir name : string) :
  String.prefix (dir +:+ "/") (path_join dir name) = true.
Proof.
  unfold path_join. induction dir as [|c dir IH]; simpl.
  - destruct (ascii_dec "/" "/"); [|congruence]. now destruct name.
  - destruct (ascii_dec c c); [exact IH|congruence].
Qed.

Lemma lookup_cleaned files tempDir zipPath disk q :
  (q = zipPath \/ String.prefix (tempDir +:+ "/") q = true \/
   In q (map path files) ->
   cleaned files tempDir zipPath disk !! q = None) /\
  (q <> zipPath -> String.prefix (tempDir +:+ "/") q = false ->
   ~ In q (map path files) ->
   cleaned files tempDir zipPath disk !! q = disk !! q).
Proof.
  unfold cleaned.
  destruct (lookup_without_files files disk q) as [Hin Hnin]. split.
  - intros H. apply lookup_delete_None.
    destruct (string_dec zipPath q) as [Heq|Hne]; [now left|right].
    apply map_lookup_filter_None.
    destruct H as [Hz|[Hp|Hf]]; [congruence| |left; auto].
    right. intros x _. simpl. now rewrite Hp.
  - intros Hz Hp Hf. rewrite lookup_delete_ne by congruence.
    rewrite <- (Hnin Hf).
    destruct (without_files files disk !! q) as [x|] eqn:Hq.
    + apply map_lookup_filter_Some. split; trivial. simpl. now rewrite Hp.
    + apply map_lookup_filter_None. now left.
Qed.

(** X12: [cleanupTemp] never throws; when it is done there is no file at
    the archive path, at the paths of the files it was given, or inside
    the temporary directory, and every other file is as it was. *)
Theorem cleanupTemp_removes_just_that (files : list File)
    (tempDir zipPath : string) (w : World) :
  let w' := snd (cleanupTemp files tempDir zipPath w) in
  fst (cleanupTemp files tempDir zipPath w) = Ret tt /\
  fs w' !! zipPath = None /\
  (forall f, In f files -> fs w' !! path f = None) /\
  (forall name, fs w' !! path_join tempDir name = None) /\
  (forall q, q <> zipPath -> ~ In q (map path files) ->
             String.prefix (tempDir +:+ "/") q = false ->
             fs w' !! q = fs w !! q).
Proof.
  destruct (cleanupTemp_world files tempDir zipPath w)
    as (w' & evs & Hrun & _ & _ & Hfs).
  rewrite Hrun. cbn [fst snd]. rewrite Hfs. split; [reflexivity|].
  repeat split.
  - apply lookup_cleaned. now left.
  - intros f Hf. apply lookup_cleaned. right. right. now apply in_map.
  - intros name. apply lookup_cleaned. right. left. apply prefix_join.
  - intros q Hz Hf Hp. now apply lookup_cleaned.
Qed.

(** ** The playlist handler cleans up and sends one archive at most *)

(** As [run_playlist], keeping what the clean-up leaves on disk. *)
Ltac run_playlist_disk :=
  unfold after_playlist, handlePlaylist, start; run_unfold;
  repeat first
    [ match goal with
      | |- context [for_of ?xs (playlist_video ?E ?d) [] ?w] =>
          let H := fresh "Hrun" in
          destruct (playlist_loop_run E d xs [] w (List.Forall_nil _))
            as (?files & ?wl & ?evl & H & ?Hlog & ?Hfetched & ?Hvideo & ?Hlen & ?Hfiles);
          rewrite H; clear H
      | |- context [cleanupTemp ?f ?d ?z ?w] =>
          let H := fresh "Hrun" in
          destruct (cleanupTemp_world f d z w) as (?wc & ?evc & H & ?Hlog & ?Hclean & ?Hdisk);
          rewrite H; clear H
      end; run_unfold
    | run_step ];
  cbn [log fs] in *;
  repeat match goal with
  | H : log ?w = _ |- context [log ?w] => rewrite H
  end.

(** X13: in a run in which archiver does not fail, once the playlist is
    announced the handler ends, whatever else fails on the way, with
    no file at the archive path and none inside the temporary
    directory it made.  When the announcement is rejected it ends at
    once, and the directory just made is not removed. *)
Theorem playlist_leaves_nothing (E : Collaborators) (chatId : Z)
    (info : Info) (disk : gmap string Z) :
  let w := after_playlist E chatId info disk in
  (forall files z, ~ In (Archiver files z false) (log w)) ->
  (announced chatId w ->
   fs w !! zip_path E info = None /\
   forall tempDir name,
     In (Mkdtemp (path_join (tmpdir E) "ytplaylist-") (Some tempDir)) (log w) ->
     fs w !! path_join tempDir name = None) /\
  (~ announced chatId w -> forall tempDir, ~ In (Rmdir tempDir) (log w)).
Proof.
  unfold announced, zip_path. run_playlist_disk; intros _; split.
  all: try (intros Hann tempDir Hin; in_log; fail).
  all: try (intros (t & n & Hin); in_log; fail).
  all: try (intros Hann; exfalso; apply Hann; eexists _, _;
            repeat first [left; reflexivity | apply in_or_app; right | right]).
  all: intros _; rewrite Hdisk; split;
    [apply lookup_cleaned; now left
    |intros tempDir name Hin; in_log; apply lookup_cleaned; right; left;
     apply prefix_join].
Qed.

Lemma playlist_leaves_nothing_witness :
  let w := after_playlist Flaky.env 7 Flaky.five ∅ in
  (announced 7 w ->
   fs w !! zip_path Flaky.env Flaky.five = None /\
   forall tempDir name,
     In (Mkdtemp (path_join (tmpdir Flaky.env) "ytplaylist-") (Some tempDir))
        (log w) ->
     fs w !! path_join tempDir name = None) /\
  (~ announced 7 w -> forall tempDir, ~ In (Rmdir tempDir) (log w)).
Proof.
  apply (playlist_leaves_nothing Flaky.env 7 Flaky.five ∅).
  intros files z Hin. vm_compute in Hin.
  repeat (destruct Hin as [Hin|Hin]; [discriminate Hin|]). exact Hin.
Defined.

Lemma deliveries_app l1 l2 :
  deliveries (l1 ++ l2) = (deliveries l1 + deliveries l2)%nat.
Proof. unfold deliveries. now rewrite List.filter_app, length_app. Qed.

Lemma deliveries_cons e l :
  deliveries (e :: l) = ((if is_delivery e then 1 else 0) + deliveries l)%nat.
Proof. unfold deliveries. simpl. now destruct (is_delivery e). Qed.

Lemma deliveries_video tempDir evs :
  Forall (video_event tempDir) evs -> deliveries evs = 0%nat.
Proof.
  induction 1 as [|e evs He _ IH]; trivial.
  rewrite deliveries_cons, IH. destruct e; simpl in *; trivial; contradiction.
Qed.

Lemma deliveries_cleanup files tempDir zipPath evs :
  Forall (cleanup_event files tempDir zipPath) evs -> deliveries evs = 0%nat.
Proof.
  induction 1 as [|e evs He _ IH]; trivial.
  rewrite deliveries_cons, IH. destruct e; simpl in *; trivial; contradiction.
Qed.

(** X14: the playlist handler hands at most one file to Telegram in a
    run: the archive, with [sendDocument] and to the chat of the
    request; the call it made just before was the [fs.stat] of the
    archive, which found it no larger than [MAX_SIZE], and before that
    archiver had ended without error on that path.  It never calls
    [sendVideo].  When archiver fails the archive is neither measured
    nor sent.  When the archive is found larger than [MAX_SIZE], the
    next call is the "exceeds 200MB" message. *)
Theorem playlist_sends_only_measured (E : Collaborators) (chatId : Z)
    (info : Info) (disk : gmap string Z) :
  let w := after_playlist E chatId info disk in
  (deliveries (log w) <= 1)%nat /\
  (forall c p ok, ~ In (SendVideo c p ok) (log w)) /\
  (forall later earlier c p ok,
     log w = later ++ SendDocument c p ok :: earlier ->
     c = chatId /\ p = zip_path E info /\
     exists size files rest,
       earlier = Stat p (Some size) :: rest /\
       In (Archiver files p true) rest /\
       (size <= MAX_SIZE)%Z) /\
  (forall files z, In (Archiver files z false) (log w) ->
     (forall q size, ~ In (Stat q size) (log w)) /\
     (forall c p ok, ~ In (SendDocument c p ok) (log w))) /\
  (forall later earlier p size,
     log w = later ++ Stat p (Some size) :: earlier -> (size > MAX_SIZE)%Z ->
     exists ok later', later = later' ++ [SendMessage chatId NZipTooLarge ok]).
Proof.
  unfold zip_path. run_playlist.
  all: split;
    [repeat (rewrite ?deliveries_app, ?deliveries_cons; cbn [is_delivery]);
     repeat match goal with
     | H : Forall (video_event _) ?evs |- context [deliveries ?evs] =>
         rewrite (deliveries_video _ _ H)
     | H : Forall (cleanup_event _ _ _) ?evs |- context [deliveries ?evs] =>
         rewrite (deliveries_cleanup _ _ _ _ H)
     end;
     unfold deliveries; simpl; lia|].
  all: split; [intros ? ? ? Hin; in_log|].
  all: split;
    [intros later earlier ? ? ? Heq; in_trace Heq; gate_facts;
     (split; [reflexivity|]); (split; [reflexivity|]);
     eexists _, _, _; (split; [reflexivity|split; [left; reflexivity|lia]])|].
  all: split;
    [intros ? ? Hin; in_log;
     (split; [intros ? ? Hs; in_log|intros ? ? ? Hs; in_log])|].
  all: intros later earlier ? ? Heq Hsize; in_trace Heq; gate_facts; try lia;
    first [ eexists _, _; reflexivity
          | eexists _, (_ ++ [_; _]); rewrite <- app_assoc; reflexivity ].
Qed.

(** ** The message handler *)

(** The calls a handler adds to the log, whatever was logged before. *)
Ltac log_segments l base :=
  lazymatch l with
  | base => constr:(@nil Event)
  | ?e :: ?l' => let r := log_segments l' base in constr:(e :: r)
  | ?a ++ ?l' => let r := log_segments l' base in constr:(a ++ r)
  end.

Ltac split_segments :=
  lazymatch goal with
  | |- ?l = ?evs ++ ?base =>
      let r := log_segments l base in
      unify evs r;
      repeat first [rewrite <- app_assoc | progress cbn [app]];
      reflexivity
  end.

Lemma single_emits E chatId info u w0 :
  exists evs,
    log (snd (handleSingleVideo E chatId info u w0)) = evs ++ log w0 /\
    Forall single_event evs /\
    (deliveries evs <= 1)%nat /\
    measured_before_sent chatId evs.
Proof.
  unfold handleSingleVideo.
  destruct (combined (formats info)) as [c|];
    [|destruct (videoOnly (formats info)) as [v|];
      [destruct (bestAudio (formats info)) as [a|]|]]; run.
  all: eexists; split; [split_log|].
  all: split; [repeat (apply List.Forall_cons; [exact I|]); apply List.Forall_nil|].
  all: split; [unfold deliveries; simpl; lia|].
  all: measured.
Qed.

Lemma video_is_playlist_event tempDir evs :
  Forall (video_event tempDir) evs -> Forall playlist_event evs.
Proof.
  apply List.Forall_impl. intros e He. destruct e; simpl in *; trivial.
Qed.

Lemma cleanup_is_playlist_event files tempDir zipPath evs :
  Forall (cleanup_event files tempDir zipPath) evs -> Forall playlist_event evs.
Proof.
  apply List.Forall_impl. intros e He. destruct e; simpl in *; trivial.
Qed.

Lemma playlist_emits E chatId info w0 :
  exists evs,
    log (snd (handlePlaylist E chatId info w0)) = evs ++ log w0 /\
    Forall playlist_event evs /\
    (deliveries evs <= 1)%nat /\
    measured_before_sent chatId evs /\
    exists d, In (Mkdtemp (path_join (tmpdir E) "ytplaylist-") d) evs.
Proof.
  unfold handlePlaylist; run_unfold;
  repeat first
    [ match goal with
      | |- context [for_of ?xs (playlist_video ?E ?d) [] ?w] =>
          let H := fresh "Hrun" in
          destruct (playlist_loop_run E d xs [] w (List.Forall_nil _))
            as (?files & ?wl & ?evl & H & ?Hlog & ?Hfetched & ?Hvideo & ?Hlen & ?Hfiles);
          rewrite H; clear H
      | |- context [cleanupTemp ?f ?d ?z ?w] =>
          let H := fresh "Hrun" in
          destruct (cleanupTemp_run f d z w) as (?wc & ?evc & H & ?Hlog & ?Hclean & ?Hzip);
          rewrite H; clear H
      end; run_unfold
    | run_step ];
  cbn [log fs] in *;
  repeat match goal with
  | H : log ?w = _ |- context [log ?w] => rewrite H
  end.
  all: eexists; split; [split_segments|].
  all: split;
    [repeat first
       [ apply List.Forall_nil
       | apply List.Forall_cons; [exact I|]
       | apply Forall_app; split
       | eapply video_is_playlist_event; eassumption
       | eapply cleanup_is_playlist_event; eassumption ]|].
  all: split;
    [repeat (rewrite ?deliveries_app, ?deliveries_cons; cbn [is_delivery]);
     repeat match goal with
     | H : Forall (video_event _) ?evs |- context [deliveries ?evs] =>
         rewrite (deliveries_video _ _ H)
     | H : Forall (cleanup_event _ _ _) ?evs |- context [deliveries ?evs] =>
         rewrite (deliveries_cleanup _ _ _ _ H)
     end;
     unfold deliveries; simpl; lia|].
  all: split; [measured|eexists; in_goal].
Qed.

Ltac run_front :=
  unfold onMessage, fret, sendReply, ftry_catch, fbind, in_world, console_error,
    sendReply_unawaited, youtubedl_json;
  repeat (cbn [fst snd world front log emit];
          match goal with
          | |- context [match ?x with _ => _ end] =>
              lazymatch x with
              | context [match _ with _ => _ end] => fail
              | _ => destruct x eqn:?
              end
          end);
  repeat match goal with a : unit |- _ => destruct a end;
  cbn [fst snd world front log emit] in *.

(** What the handler that the message was passed to has logged. *)
Ltac handler_facts :=
  match goal with
  | H : handlePlaylist ?E ?c ?info ?w0 = (_, _) |- _ =>
      destruct (playlist_emits E c info w0)
        as (?evs & ?Hlog & ?Hkind & ?Hcount & ?Hmeasured & ?dir & ?Hdir);
      rewrite H in *
  | H : handleSingleVideo ?E ?c ?info ?u ?w0 = (_, _) |- _ =>
      destruct (single_emits E c info u w0)
        as (?evs & ?Hlog & ?Hkind & ?Hcount & ?Hmeasured);
      rewrite H in *
  end;
  cbn [fst snd world front log emit] in *.

(** X15: whatever the message and whatever Telegram, yt-dlp, ffmpeg and
    archiver do, handling one message hands at most one file to
    Telegram, to the chat the message came from, and the call made
    just before was the [fs.stat] of that file, which found it within
    [MAX_SIZE]. *)
Theorem message_sends_only_measured (E : Collaborators)
    (telegram : Session -> Z -> Reply -> bool) (msg : Message) (s : Session) :
  exists evs,
    log (world (snd (onMessage E telegram msg s))) = evs ++ log (world s) /\
    (deliveries evs <= 1)%nat /\
    measured_before_sent (chat_id msg) evs.
Proof.
  run_front; try handler_facts.
  all: try (exists []; split; [reflexivity|split; [unfold deliveries; simpl; lia|apply measured_nil]]).
  all: try (eexists (_ ++ [_]); split;
            [rewrite <- app_assoc; eassumption
            |split; [rewrite deliveries_app; unfold deliveries at 2; simpl; lia
                    |apply measured_after; [reflexivity|assumption]]]).
  exists [DumpSingleJson s0 false]. split; [reflexivity|].
  split; [unfold deliveries; simpl; lia|].
  apply (measured_after _ [] (DumpSingleJson s0 false) eq_refl), measured_nil.
Qed.

Lemma is_link_tests msg u :
  text msg = Some u ->
  is_link msg = negb ((u =? "")%string || String.prefix "/" u) && youtube_url u.
Proof.
  unfold is_link. intros ->.
  now destruct (u =? "")%string, (String.prefix "/" u).
Qed.

Ltac link_facts :=
  repeat match goal with
  | Ht : text ?msg = Some ?u, H : context [is_link ?msg] |- _ =>
      rewrite (is_link_tests msg u Ht) in H
  | H : text ?msg = None, H' : context [is_link ?msg] |- _ =>
      unfold is_link in H'; rewrite H in H'
  | H : ?b = _, H' : context [?b] |- _ =>
      lazymatch b with
      | orb _ _ => idtac | negb _ => idtac | youtube_url _ => idtac
      end;
      rewrite H in H'
  | H : negb ?b = _ |- _ => destruct b eqn:?; simpl in H
  end;
  simpl in *; try discriminate.

(** X16: text that is no YouTube link reaches neither yt-dlp nor the
    disk: the world of the two handlers is left as it was, and the
    handler does nothing at all (no text, empty text, a command) or
    only sends the invalid-URL reply, whose rejection it passes on. *)
Theorem only_links_are_fetched (E : Collaborators)
    (telegram : Session -> Z -> Reply -> bool) (msg : Message) (s : Session)
    (Hother : is_link msg = false) :
  let r := onMessage E telegram msg s in
  world (snd r) = world s /\
  (r = (Ret tt, s) \/
   exists ok,
     front (snd r) = SendReply (chat_id msg) RInvalidUrl ok :: front s /\
     fst r = if ok then Ret tt else Throw TelegramError).
Proof.
  cbv zeta. run_front; link_facts.
  all: try (split; [reflexivity|]).
  all: try (left; reflexivity).
  all: right; eexists; split; reflexivity.
Qed.

Lemma only_links_are_fetched_witness :
  let r := onMessage (Scenario.env Scenario.online 1000 true Scenario.clip_combined)
             Chat.rejecting Chat.greeting (arrive ∅) in
  world (snd r) = world (arrive ∅) /\
  (r = (Ret tt, arrive ∅) \/
   exists ok,
     front (snd r) = SendReply (chat_id Chat.greeting) RInvalidUrl ok :: front (arrive ∅) /\
     fst r = if ok then Ret tt else Throw TelegramError).
Proof.
  apply (only_links_are_fetched
           (Scenario.env Scenario.online 1000 true Scenario.clip_combined)
           Chat.rejecting Chat.greeting (arrive ∅)).
  reflexivity.
Defined.

(** X17: the handler of a link never rejects.  Either the handler it
    passed the message to returned, and the Fetching reply is all the
    message handler itself sent, or something threw: then the error is
    written to the console and the Failed reply attempted, once each
    and in this order.  When it is the Fetching reply that Telegram
    rejected, yt-dlp has not been asked. *)
Theorem link_failure_is_answered (E : Collaborators)
    (telegram : Session -> Z -> Reply -> bool) (msg : Message) (s : Session)
    (Hlink : is_link msg = true) :
  let r := onMessage E telegram msg s in
  let chatId := chat_id msg in
  fst r = Ret tt /\
  (front (snd r) = SendReply chatId RFetching true :: front s \/
   exists err ok fetching,
     front (snd r) =
       SendReply chatId RFailed ok :: ConsoleError err ::
       SendReply chatId RFetching fetching :: front s /\
     (fetching = false -> err = TelegramError /\ world (snd r) = world s)).
Proof.
  cbv zeta. run_front; link_facts.
  all: split; [reflexivity|].
  all: try (left; reflexivity).
  all: right; do 3 eexists; (split; [reflexivity|]); intros Hf;
    try discriminate; split; reflexivity.
Qed.

Lemma link_failure_is_answered_witness :
  let E := Scenario.env Scenario.online 1000 true Scenario.clip_combined in
  let r := onMessage E Chat.rejecting Chat.link (arrive ∅) in
  let chatId := chat_id Chat.link in
  fst r = Ret tt /\
  (front (snd r) = SendReply chatId RFetching true :: front (arrive ∅) \/
   exists err ok fetching,
     front (snd r) =
       SendReply chatId RFailed ok :: ConsoleError err ::
       SendReply chatId RFetching fetching :: front (arrive ∅) /\
     (fetching = false -> err = TelegramError /\ world (snd r) = world (arrive ∅))).
Proof.
  apply (link_failure_is_answered
           (Scenario.env Scenario.online 1000 true Scenario.clip_combined)
           Chat.rejecting Chat.link (arrive ∅)).
  reflexivity.
Defined.

(** X18: what yt-dlp reports decides the handler.  With more than one
    entry the playlist handler runs: it makes its temporary directory
    and never calls [sendVideo].  Otherwise the single-video handler
    runs, which makes no directory, no archive and sends no
    document. *)
Theorem message_dispatch (E : Collaborators)
    (telegram : Session -> Z -> Reply -> bool) (msg : Message) (s : Session)
    (u : string) (info : Info)
    (Htext : text msg = Some u) (Hlink : is_link msg = true)
    (Hreply : telegram s (chat_id msg) RFetching = true)
    (Hinfo : ytdl_json E (world s) u = Some info) :
  exists evs,
    log (world (snd (onMessage E telegram msg s))) =
      evs ++ DumpSingleJson u true :: log (world s) /\
    if (1 <? length (entries info))%nat
    then Forall playlist_event evs /\
         exists d, In (Mkdtemp (path_join (tmpdir E) "ytplaylist-") d) evs
    else Forall single_event evs.
Proof.
  run_front; link_facts; try congruence.
  all: match goal with H : Some _ = Some _ |- _ => injection H as -> end.
  all: repeat match goal with
       | H : ?x = Some _, H' : ?x = _ |- _ =>
           rewrite H in H'; first [discriminate | injection H' as ->]
       end.
  all: handler_facts; eexists; (split; [eassumption|]).
  all: eauto.
Qed.

Lemma message_dispatch_witness :
  let E := Scenario.env Scenario.online 1000 true fifteen in
  exists evs,
    log (world (snd (onMessage E Chat.accepting Chat.link (arrive ∅)))) =
      evs ++ DumpSingleJson "https://youtu.be/ER9SspLe4Hg" true :: log (world (arrive ∅)) /\
    if (1 <? length (entries fifteen))%nat
    then Forall playlist_event evs /\
         exists d, In (Mkdtemp (path_join (tmpdir E) "ytplaylist-") d) evs
    else Forall single_event evs.
Proof.
  apply (message_dispatch (Scenario.env Scenario.online 1000 true fifteen)
           Chat.accepting Chat.link (arrive ∅) "https://youtu.be/ER9SspLe4Hg" fifteen);
    reflexivity.
Defined.

(** ** The run of the stand-alone script *)

Lemma forEach_say {A} (g : A -> Script.Line) (xs : list A) (r : Script.Run) :
  Script.forEach xs (fun x => Script.say (g x)) r =
  (Script.Value tt,
   {| Script.machine := Script.machine r;
      Script.printed := rev (map g xs) ++ Script.printed r |}).
Proof.
  revert r. induction xs as [|x xs IH]; intros r.
  - now destruct r.
  - cbn [Script.forEach]. unfold Script.pbind at 1. unfold Script.say at 1.
    rewrite IH. cbn [Script.machine Script.printed map rev].
    now rewrite <- app_assoc.
Qed.

Lemma append_inv_head (s x y : string) : s +:+ x = s +:+ y -> x = y.
Proof.
  induction s as [|c s IH]; simpl; [trivial|].
  intros H. injection H as H. auto.
Qed.

Lemma path_join_inv (dir s x y : string) :
  path_join dir (s +:+ x) = path_join dir (s +:+ y) -> x = y.
Proof.
  unfold path_join. intros H.
  apply append_inv_head in H.
  apply (append_inv_head "/") in H.
  now apply append_inv_head in H.
Qed.

Ltac run_script_unfold :=
  cbv beta iota zeta delta
    [Script.ptry_catch Script.pbind Script.lift Script.pret
     Script.raise Script.exec Script.callback Script.safeTitle_of
     youtubedl youtubedl_json unlink emit];
  cbn [Script.machine Script.printed fs log fst snd].

Ltac run_script_step :=
  match goal with
  | |- context [Script.forEach ?xs (fun x => Script.say (@?g x)) ?r] =>
      rewrite (forEach_say g xs r)
  | |- context [Script.say ?l ?r] =>
      change (Script.say l r)
        with (Script.Value tt,
              {| Script.machine := Script.machine r;
                 Script.printed := l :: Script.printed r |})
  | |- context [match ?x with _ => _ end] =>
      lazymatch x with
      | context [match _ with _ => _ end] => fail
      | _ => destruct x eqn:?
      end
  end; run_script_unfold.

Ltac run_script :=
  unfold Script.main, Script.begin, start; run_script_unfold;
  repeat run_script_step.

Ltac script_facts :=
  repeat match goal with
  | H : ?x = _ |- context [?x] =>
      lazymatch x with
      | Script.combined720p _ => idtac
      | Script.videoOnly720p _ => idtac
      | Script.audioFormats _ => idtac
      | title _ => idtac
      end;
      rewrite H
  end.

(** X19: every download of the script is for its URL and for a format
    of its selection from the catalog that yt-dlp reported, and goes to
    a file in the directory of the script whose name starts with the
    safe title; without a title nothing is downloaded. *)
Theorem script_downloads_the_selection (E : Collaborators) (disk : gmap string Z)
    (u fmt output : string) (ok : bool) :
  In (Download u fmt output ok)
     (log (Script.machine (snd (Script.main E (Script.begin disk))))) ->
  u = Script.url /\
  exists info t f,
    ytdl_json E (start disk) Script.url = Some info /\
    title info = Some t /\
    In f (chosen (Script.selection (formats info))) /\
    fmt = format_id f /\
    exists name, output = path_join (__dirname E) (Script.safeTitle t +:+ name).
Proof.
  unfold Script.selection. run_script; intros Hin; in_log.
  all: split; [reflexivity|]; do 3 eexists; (split; [reflexivity|]).
  all: script_facts; (split; [reflexivity|]).
  all: (split; [|split; [reflexivity|eexists; reflexivity]]); simpl; eauto.
Qed.

Lemma script_downloads_the_selection_witness :
  "https://youtu.be/ER9SspLe4Hg?si=3i-sRRqywj8XSU4T" = Script.url /\
  exists info t f,
    ytdl_json (Scenario.env Scenario.online 1000 true Scenario.clip_split)
      (start ∅) Script.url = Some info /\
    title info = Some t /\
    In f (chosen (Script.selection (formats info))) /\
    "139" = format_id f /\
    exists name, "/app/clip_audio.m4a" = path_join "/app" (Script.safeTitle t +:+ name).
Proof.
  apply (script_downloads_the_selection
           (Scenario.env Scenario.online 1000 true Scenario.clip_split) ∅
           "https://youtu.be/ER9SspLe4Hg?si=3i-sRRqywj8XSU4T" "139"
           "/app/clip_audio.m4a" true).
  vm_compute. in_list.
Defined.

(** X20: the script unlinks only the two parts it merged, and in this
    order.  Among its calls to yt-dlp, ffmpeg and the file system, the
    one just before the unlink of the video part is ffmpeg ending
    without error, and the two just before the unlink of the audio
    part are that ffmpeg and the unlink of the video part that went
    well.  The merged output is never unlinked, and a part that was
    unlinked is not on the disk at the end. *)
Theorem script_unlinks_only_merged_parts (E : Collaborators)
    (disk : gmap string Z) (later earlier : list Event) (q : string)
    (ok : bool) :
  let w := Script.machine (snd (Script.main E (Script.begin disk))) in
  log w = later ++ Unlink q ok :: earlier ->
  exists v a o rest,
    q <> o /\
    (q = v /\ earlier = Ffmpeg v a o true :: rest \/
     q = a /\ earlier = Unlink v true :: Ffmpeg v a o true :: rest) /\
    (ok = true -> fs w !! q = None).
Proof.
  cbv zeta. run_script; intros Heq; in_trace Heq.
  all: do 4 eexists;
    (split; [|split; [first [left; split; reflexivity
                            |right; split; reflexivity]|]]).
  all: try (intros Hq; apply path_join_inv in Hq; discriminate Hq).
  all: intros Hok; try discriminate Hok;
    repeat match goal with
    | |- delete ?p _ !! ?p = None => apply lookup_delete_eq
    | |- delete _ _ !! _ = None => apply lookup_delete_None; right
    | H : ?m !! ?p = None |- ?m !! ?p = None => exact H
    end.
Qed.

Lemma script_unlinks_only_merged_parts_witness :
  let w := Script.machine
             (snd (Script.main
                     (Scenario.env Scenario.online 1000 true Scenario.clip_split)
                     (Script.begin ∅))) in
  exists v a o rest,
    "/app/clip_audio.m4a" <> o /\
    ("/app/clip_audio.m4a" = v /\
     [Unlink "/app/clip_video.mp4" true;
      Ffmpeg "/app/clip_video.mp4" "/app/clip_audio.m4a"
        "/app/clip_720p_merged.mp4" true;
      Download Script.url "139" "/app/clip_audio.m4a" true;
      Download Script.url "136" "/app/clip_video.mp4" true;
      DumpSingleJson Script.url true] = Ffmpeg v a o true :: rest \/
     "/app/clip_audio.m4a" = a /\
     [Unlink "/app/clip_video.mp4" true;
      Ffmpeg "/app/clip_video.mp4" "/app/clip_audio.m4a"
        "/app/clip_720p_merged.mp4" true;
      Download Script.url "139" "/app/clip_audio.m4a" true;
      Download Script.url "136" "/app/clip_video.mp4" true;
      DumpSingleJson Script.url true] =
     Unlink v true :: Ffmpeg v a o true :: rest) /\
    (true = true -> fs w !! "/app/clip_audio.m4a" = None).
Proof.
  apply (script_unlinks_only_merged_parts
           (Scenario.env Scenario.online 1000 true Scenario.clip_split) ∅
           []
           [Unlink "/app/clip_video.mp4" true;
            Ffmpeg "/app/clip_video.mp4" "/app/clip_audio.m4a"
              "/app/clip_720p_merged.mp4" true;
            Download Script.url "139" "/app/clip_audio.m4a" true;
            Download Script.url "136" "/app/clip_video.mp4" true;
            DumpSingleJson Script.url true]
           "/app/clip_audio.m4a" true).
  reflexivity.
Defined.

(** X21: when ffmpeg ends with an error the script prints it and does
    nothing more: the call of ffmpeg is the last one made and the disk
    is as ffmpeg left it, with both parts where they were downloaded
    to. *)
Theorem script_failed_merge_stops (E : Collaborators) (disk : gmap string Z)
    (v a o : string) :
  let r := snd (Script.main E (Script.begin disk)) in
  let w := Script.machine r in
  In (Ffmpeg v a o false) (log w) ->
  exists w0,
    log w = Ffmpeg v a o false :: log w0 /\
    fs w = snd (ffmpeg E w0 v a o) /\
    (exists lines, Script.printed r = Script.EMerge :: lines) /\
    exists fv fa,
      In (Download Script.url fv v true) (log w0) /\
      In (Download Script.url fa a true) (log w0).
Proof.
  cbv zeta. run_script; intros Hin; in_log.
  match goal with
  | H : ffmpeg E ?w0 _ _ _ = _ |- _ => exists w0; rewrite H
  end.
  cbn [log snd].
  repeat split; eauto 6 using in_eq, in_cons.
Qed.

Lemma script_failed_merge_stops_witness :
  let E := Scenario.env Scenario.online 1000 false Scenario.clip_split in
  let r := snd (Script.main E (Script.begin ∅)) in
  let w := Script.machine r in
  exists w0,
    log w = Ffmpeg "/app/clip_video.mp4" "/app/clip_audio.m4a"
              "/app/clip_720p_merged.mp4" false :: log w0 /\
    fs w = snd (ffmpeg E w0 "/app/clip_video.mp4" "/app/clip_audio.m4a"
                  "/app/clip_720p_merged.mp4") /\
    (exists lines, Script.printed r = Script.EMerge :: lines) /\
    exists fv fa,
      In (Download Script.url fv "/app/clip_video.mp4" true) (log w0) /\
      In (Download Script.url fa "/app/clip_audio.m4a" true) (log w0).
Proof.
  apply (script_failed_merge_stops
           (Scenario.env Scenario.online 1000 false Scenario.clip_split) ∅
           "/app/clip_video.mp4" "/app/clip_audio.m4a" "/app/clip_720p_merged.mp4").
  vm_compute. in_list.
Defined.

Lemma format_lines (l : Script.Line) (xs : list Format) :
  In l (rev (map (fun f => Script.LFormat (format_id f)) xs)) ->
  exists id, l = Script.LFormat id.
Proof.
  rewrite <- in_rev, in_map_iff. intros (f & <- & _). eauto.
Qed.

(** X22: a video for which yt-dlp reports no title.  When the catalog
    holds something to download, [info.title.replace] throws a
    [TypeError] before any download: the script catches and prints it,
    and has called nothing but the JSON request.  When the catalog
    holds nothing to download the title is not looked at, and no error
    is printed. *)
Theorem script_needs_a_title (E : Collaborators) (disk : gmap string Z)
    (info : Info)
    (Hinfo : ytdl_json E (start disk) Script.url = Some info)
    (Htitle : title info = None) :
  let r := Script.main E (Script.begin disk) in
  fst r = Script.Value tt /\
  Script.machine (snd r) = emit (DumpSingleJson Script.url true) (start disk) /\
  (In (Script.EFetch Script.TypeError) (Script.printed (snd r)) <->
   chosen (Script.selection (formats info)) <> []).
Proof.
  cbv zeta. unfold start in *. run_script; try congruence.
  all: repeat match goal with
       | H : Some _ = Some _ |- _ => injection H as ->
       end.
  all: unfold Script.selection; script_facts; try congruence.
  all: (split; [reflexivity|]); (split; [reflexivity|]).
  all: cbn [chosen head]; split; try congruence.
  all: try (intros _; in_goal; fail).
  all: intros Hin; in_log; try discriminate;
    match goal with
    | H : In _ (rev _) |- _ => apply format_lines in H as (? & ?); discriminate
    end.
Qed.

Lemma script_needs_a_title_witness :
  let info := mkInfo None [Demo.f22] [] in
  let r := Script.main (Scenario.env Scenario.online 1000 true info)
             (Script.begin ∅) in
  fst r = Script.Value tt /\
  Script.machine (snd r) = emit (DumpSingleJson Script.url true) (start ∅) /\
  (In (Script.EFetch Script.TypeError) (Script.printed (snd r)) <->
   chosen (Script.selection (formats info)) <> []).
Proof.
  apply (script_needs_a_title
           (Scenario.env Scenario.online 1000 true (mkInfo None [Demo.f22] []))
           ∅ (mkInfo None [Demo.f22] [])); reflexivity.
Defined.
